(** * DeepFillV2: the training orchestration of [deepfillv2.py]

    A shallow embedding of the [DeepFillV2] Lightning module: its
    constructor, [configure_optimizers], the three data loader builders,
    [training_step] and [on_epoch_end], together with the tensor and array
    primitives these methods call.

    - Tensor entries are kept abstract behind the interface [Scalar]; the
      orchestration theorems hold for every implementation of it.  Facts
      that depend on arithmetic identities ask for [ExactArith], or for
      [FiniteArith] where only the identities of floating-point arithmetic
      on finite numbers are needed.  [IEEE] gives binary64 floats as
      scalars, [Exact] the rationals.
    - A Python exception is a [Raise] result; the state reached when the
      exception leaves the method is kept.
    - The generator, the discriminator and the reconstruction loss are
      imported by the module and are reached through the interface
      [Networks]. *)

From Stdlib Require Import Ascii String List ZArith QArith Qcanon Bool Lia Lqa Arith.
From Stdlib Require Floats.
Import ListNotations.

Set Implicit Arguments.

(** ** Python results *)

Inductive exn : Type :=
| RuntimeError      (* torch: shapes that do not broadcast or concatenate *)
| ValueError        (* numpy: bad axes, shapes, or nothing to concatenate *)
| IndexError
| AttributeError.

Inductive result (A : Type) : Type :=
| Ok (a : A)
| Raise (e : exn).
Arguments Ok {A} a.
Arguments Raise {A} e.

Definition rbind {A B} (r : result A) (k : A -> result B) : result B :=
  match r with
  | Ok a => k a
  | Raise e => Raise e
  end.

Declare Scope result_scope.
Delimit Scope result_scope with result.
Notation "x <~ c ;; k" := (rbind c (fun x => k))
  (at level 61, c at next level, right associativity) : result_scope.

(** ** Scalars *)

(** The operations the module performs on tensor entries and on Python
    floats.  [lit q] is the scalar a numeric literal denotes, [trunc] the
    integer part kept by a cast to an integer type. *)
Class Scalar (T : Type) : Type := {
  lit : Q -> T;
  sadd : T -> T -> T;
  ssub : T -> T -> T;
  smul : T -> T -> T;
  sdiv : T -> T -> T;
  sneg : T -> T;
  sabs : T -> T;
  sleb : T -> T -> bool;
  trunc : T -> Z
}.

(** The identities of exact arithmetic used below: the neutral and the
    absorbing element, and the order against a difference and a sum. *)
Class ExactArith (T : Type) `{Scalar T} : Prop := {
  sadd_0_l : forall x, sadd (lit 0) x = x;
  sadd_0_r : forall x, sadd x (lit 0) = x;
  smul_1_r : forall x, smul x (lit 1) = x;
  smul_0_r : forall x, smul x (lit 0) = lit 0;
  ssub_1_0 : ssub (lit 1) (lit 0) = lit 1;
  ssub_1_1 : ssub (lit 1) (lit 1) = lit 0;
  sleb_sub : forall a b, sleb a b = true -> sleb (ssub a b) (lit 0) = true;
  sleb_add : forall a b, sleb b (sneg a) = true -> sleb (sadd a b) (lit 0) = true
}.

(** The identities that floating-point arithmetic keeps.  [finite x] holds
    of a number: not of an infinity, not of NaN.  [same x y] is the
    comparison [x == y], under which the two zeros are one number.  A
    product with 0 is a zero for a finite factor only (it is NaN for an
    infinity), and a zero is neutral for the sum up to [same]. *)
Class FiniteArith (T : Type) `{Scalar T} : Type := {
  finite : T -> Prop;
  same : T -> T -> Prop;
  finite_0 : finite (lit 0);
  finite_1 : finite (lit 1);
  same_refl : forall x, finite x -> same x x;
  smul_one : forall x, smul x (lit 1) = x;
  smul_zero : forall x, finite x -> same (smul x (lit 0)) (lit 0);
  sadd_zero_l : forall z x, same z (lit 0) -> finite x -> same (sadd z x) x;
  sadd_zero_r : forall z x, same z (lit 0) -> finite x -> same (sadd x z) x;
  one_minus_zero : ssub (lit 1) (lit 0) = lit 1;
  one_minus_one : ssub (lit 1) (lit 1) = lit 0
}.

(** [torch.nn.functional.relu] on one entry. *)
Definition relu {T} `{Scalar T} (x : T) : T :=
  if sleb x (lit 0) then lit 0 else x.

(** [ndarray.astype(np.uint8)] on one entry: the fraction is dropped and
    the integer is kept modulo 2^8, so that 328.06 becomes 72. *)
Definition astype_uint8 {T} `{Scalar T} (x : T) : Z := (trunc x) mod 256.

(** ** Tensors and arrays *)

(** A tensor is its shape and its entries by multi-index. *)
Record tensor (A : Type) : Type := mkTensor {
  shape : list nat;
  get : list nat -> A
}.

Definition tmap {A B} (f : A -> B) (t : tensor A) : tensor B :=
  mkTensor (shape t) (fun i => f (get t i)).

(** All multi-indices of a shape, in row-major order. *)
Fixpoint indices (s : list nat) : list (list nat) :=
  match s with
  | [] => [[]]
  | d :: s' => flat_map (fun i => map (cons i) (indices s')) (seq 0 d)
  end.

Definition elements {A} (t : tensor A) : list A :=
  map (get t) (indices (shape t)).

Definition numel {A} (t : tensor A) : nat := fold_right Nat.mul 1%nat (shape t).

(** Broadcasting of two dimensions, then of two shapes aligned at their
    last dimension. *)
Definition broadcast_dim (d1 d2 : nat) : option nat :=
  if (d1 =? d2)%nat then Some d1
  else if (d1 =? 1)%nat then Some d2
  else if (d2 =? 1)%nat then Some d1
  else None.

Fixpoint broadcast_rev (s1 s2 : list nat) : option (list nat) :=
  match s1, s2 with
  | [], s => Some s
  | s, [] => Some s
  | d1 :: r1, d2 :: r2 =>
      match broadcast_dim d1 d2, broadcast_rev r1 r2 with
      | Some d, Some r => Some (d :: r)
      | _, _ => None
      end
  end.

Definition broadcast_shapes (s1 s2 : list nat) : option (list nat) :=
  option_map (@rev nat) (broadcast_rev (rev s1) (rev s2)).

(** The index read in an operand of shape [s] for the index [i] of the
    broadcast result: leading dimensions the operand lacks are dropped and
    a dimension of size 1 is read at 0. *)
Fixpoint bidx_rev (s i : list nat) : list nat :=
  match s, i with
  | d :: s', k :: i' => (if (d =? 1)%nat then 0%nat else k) :: bidx_rev s' i'
  | _, _ => []
  end.

Definition bidx (s i : list nat) : list nat := rev (bidx_rev (rev s) (rev i)).

(** An entrywise binary operation with broadcasting; [e] is the exception
    of the library at hand for shapes that do not broadcast. *)
Definition binop {A} (e : exn) (f : A -> A -> A) (a b : tensor A) : result (tensor A) :=
  match broadcast_shapes (shape a) (shape b) with
  | Some s => Ok (mkTensor s (fun i => f (get a (bidx (shape a) i)) (get b (bidx (shape b) i))))
  | None => Raise e
  end.

(** [c - t], [c + t] and [t * c] for a Python number [c]. *)
Definition rsub {T} `{Scalar T} (c : T) (t : tensor T) : tensor T := tmap (ssub c) t.
Definition radd {T} `{Scalar T} (c : T) (t : tensor T) : tensor T := tmap (sadd c) t.
Definition mul_scalar {T} `{Scalar T} (t : tensor T) (c : T) : tensor T :=
  tmap (fun x => smul x c) t.

(** [torch.mean]: the sum of all entries over their number. *)
Definition mean {T} `{Scalar T} (t : tensor T) : T :=
  sdiv (fold_left sadd (elements t) (lit 0)) (lit (inject_Z (Z.of_nat (numel t)))).

(** [t.size(k)] and [t[j]]. *)
Definition size {A} (t : tensor A) (k : nat) : result nat :=
  match nth_error (shape t) k with
  | Some d => Ok d
  | None => Raise IndexError
  end.

Definition getitem {A} (t : tensor A) (j : nat) : result (tensor A) :=
  match shape t with
  | [] => Raise IndexError
  | d :: s => if (j <? d)%nat then Ok (mkTensor s (fun i => get t (j :: i)))
              else Raise IndexError
  end.

(** A Python tuple of numbers read as a one-dimensional array. *)
Definition of_tuple {T} `{Scalar T} (l : list T) : tensor T :=
  mkTensor [length l] (fun i => nth (hd 0%nat i) l (lit 0)).

(** [np.transpose(a, axes)]: dimension [k] of the result is dimension
    [nth k axes] of [a]. *)
Fixpoint position (a : nat) (axes : list nat) : nat :=
  match axes with
  | [] => 0%nat
  | b :: axes' => if (a =? b)%nat then 0%nat else S (position a axes')
  end.

Definition is_permutation (axes : list nat) (rank : nat) : bool :=
  (length axes =? rank)%nat &&
  forallb (fun a => existsb (Nat.eqb a) axes) (seq 0 rank).

Definition transpose {A} (a : tensor A) (axes : list nat) : result (tensor A) :=
  if is_permutation axes (length (shape a)) then
    Ok (mkTensor (map (fun k => nth k (shape a) 0%nat) axes)
                 (fun i => get a (map (fun d => nth (position d axes) i 0%nat)
                                      (seq 0 (length (shape a))))))
  else Raise ValueError.

(** Concatenation along [axis]: every shape agrees with the first one
    except at [axis]; nothing to concatenate is an error. *)
Definition set_nth (k v : nat) (l : list nat) : list nat :=
  firstn k l ++ v :: skipn (S k) l.

Definition same_off_axis (axis : nat) (s1 s2 : list nat) : bool :=
  (length s1 =? length s2)%nat &&
  forallb (fun k => (k =? axis)%nat || (nth k s1 0 =? nth k s2 0)%nat) (seq 0 (length s1)).

Fixpoint cat_get {A} (axis : nat) (t : tensor A) (ts : list (tensor A)) (i : list nat) : A :=
  match ts with
  | [] => get t i
  | t' :: ts' =>
      let k := nth axis i 0%nat in
      let d := nth axis (shape t) 0%nat in
      if (k <? d)%nat then get t i else cat_get axis t' ts' (set_nth axis (k - d) i)
  end.

Definition axis_total {A} (axis : nat) (ts : list (tensor A)) : nat :=
  fold_right (fun t n => (nth axis (shape t) 0 + n)%nat) 0%nat ts.

Definition concatenate {A} (e : exn) (ts : list (tensor A)) (axis : nat) : result (tensor A) :=
  match ts with
  | [] => Raise e
  | t :: ts' =>
      if (axis <? length (shape t))%nat &&
         forallb (fun t' => same_off_axis axis (shape t) (shape t')) ts'
      then Ok (mkTensor (set_nth axis (axis_total axis ts) (shape t)) (cat_get axis t ts'))
      else Raise e
  end.

(** [torch.cat(ts, dim)]. *)
Definition cat {A} (ts : list (tensor A)) (dim : nat) : result (tensor A) :=
  concatenate RuntimeError ts dim.

(** [np.atleast_1d], [np.atleast_2d], [np.vstack] and [np.hstack]. *)
Definition atleast_1d {A} (a : tensor A) : tensor A :=
  match shape a with
  | [] => mkTensor [1%nat] (fun _ => get a [])
  | _ => a
  end.

Definition atleast_2d {A} (a : tensor A) : tensor A :=
  match shape a with
  | [] => mkTensor [1%nat; 1%nat] (fun _ => get a [])
  | [n] => mkTensor [1%nat; n] (fun i => get a (tl i))
  | _ => a
  end.

Definition vstack {A} (l : list (tensor A)) : result (tensor A) :=
  concatenate ValueError (map atleast_2d l) 0.

Definition hstack {A} (l : list (tensor A)) : result (tensor A) :=
  let arrs := map atleast_1d l in
  match arrs with
  | a :: _ => if (length (shape a) =? 1)%nat then concatenate ValueError arrs 0
              else concatenate ValueError arrs 1
  | [] => concatenate ValueError arrs 1
  end.

(** Moving a tensor between devices and viewing it as an array leave its
    shape and entries as they are; so does cutting it from the autograd
    graph. *)
Definition cuda {A} (t : tensor A) : tensor A := t.
Definition cpu {A} (t : tensor A) : tensor A := t.
Definition numpy {A} (t : tensor A) : tensor A := t.
Definition detach {A} (t : tensor A) : tensor A := t.

(** The loop [for x in l: acc = body(acc, x)] where the body may raise. *)
Fixpoint for_each {A X} (l : list X) (body : A -> X -> result A) (acc : A) : result A :=
  match l with
  | [] => Ok acc
  | x :: l' => rbind (body acc x) (for_each l' body)
  end.

(** ** What the module imports *)

(** [model.InpaintSAGenerator], [model.InpaintSADiscriminator] and
    [util.loss.ReconstructionLoss]: a constructor each, the forward pass,
    and the parameters [net.parameters()] hands to an optimizer. *)
Class Networks (T : Type) : Type := {
  Gnet : Type;
  Dnet : Type;
  Rloss : Type;
  Param : Type;
  InpaintSAGenerator : Z -> Gnet;
  InpaintSADiscriminator : Z -> Dnet;
  ReconstructionLoss : T -> T -> T -> T -> Rloss;
  G_forward : Gnet -> tensor T -> tensor T -> result (tensor T * tensor T);
  D_forward : Dnet -> tensor T -> result (tensor T);
  R_forward : Rloss -> tensor T -> tensor T -> tensor T -> tensor T -> result T;
  G_parameters : Gnet -> list Param;
  D_parameters : Dnet -> list Param
}.

(** ** Data model *)

(** The parsed command line ([util.arguments.parse_arguments]), with the
    attributes the module reads. *)
Record Hparams (T : Type) : Type := mkHparams {
  input_nc : Z;
  l1_c_h : T;
  l1_c_nh : T;
  l1_r_h : T;
  l1_r_nh : T;
  lr : T;
  weight_decay : T;
  gen_loss_alpha : T;
  disc_loss_alpha : T;
  dataset : string;
  vis_dataset : string;
  image_size : Z;
  bbox_shape : Z;
  bbox_randomness : T;
  bbox_margin : Z;
  bbox_max_num : Z;
  overfit : bool;
  batch_size : Z;
  num_workers : Z;
  experiment : string;
  save_epoch : Z;
  max_epoch : Z
}.

(** A batch: the dictionary with the keys ['image'] and ['mask']. *)
Record Batch (T : Type) : Type := mkBatch {
  batch_image : tensor T;
  batch_mask : tensor T
}.

(** [InpaintDataset.InpaintDataset(...)] and [torch.utils.data.DataLoader(...)]
    as the module configures them. *)
Record InpaintDataset (T : Type) : Type := mkInpaintDataset {
  ds_root : string;
  ds_split : string;
  ds_image_size : Z;
  ds_bbox_shape : Z;
  ds_bbox_randomness : T;
  ds_bbox_margin : Z;
  ds_bbox_max_num : Z;
  ds_overfit : bool
}.

Record DataLoader (T : Type) : Type := mkDataLoader {
  dl_dataset : InpaintDataset T;
  dl_batch_size : Z;
  dl_shuffle : bool;
  dl_num_workers : Z;
  dl_drop_last : bool
}.

(** An Adam optimizer: its parameters and the two options the module
    sets. *)
Record Adam (P T : Type) : Type := mkAdam {
  adam_params : P;
  adam_lr : T;
  adam_weight_decay : T
}.

(** [torch.optim.Adam(params, lr=..., weight_decay=...)]: the constructor
    raises [ValueError] unless [0.0 <= lr], then unless
    [0.0 <= weight_decay], then for an empty parameter list. *)
Definition torch_optim_Adam {P T} `{Scalar T} (params : list P) (lr weight_decay : T)
  : result (Adam (list P) T) :=
  if negb (sleb (lit 0) lr) then Raise ValueError
  else if negb (sleb (lit 0) weight_decay) then Raise ValueError
  else match params with
       | [] => Raise ValueError
       | _ => Ok (mkAdam params lr weight_decay)
       end.

(** The calls made on [self.logger]. *)
Inductive LogEntry (T : Type) : Type :=
| log_generator_losses (step : Z) (gen_loss reconstruction_loss : T)
| log_total_generator_loss (step : Z) (total_loss : T)
| log_total_discriminator_loss (step : Z) (disc_loss : T)
| log_discriminator_losses (step : Z) (real_loss fake_loss : T)
| log_image (step : Z) (visualization : tensor Z).

(** The forward passes made, in order (a ghost record of the calls). *)
Inductive Invocation (T : Type) : Type :=
| call_net_G (image mask : tensor T)
| call_net_D (x : tensor T)
| call_recon_loss (image coarse refined mask : tensor T).

(** The dictionary [training_step] returns. *)
Record StepOutput (T : Type) : Type := mkStepOutput {
  loss : T;
  progress_bar : list (string * T)
}.

(** [[f(x) for x in l]] where [f] may raise. *)
Fixpoint map_result {X Y} (f : X -> result Y) (l : list X) : result (list Y) :=
  match l with
  | [] => Ok []
  | x :: l' => rbind (f x) (fun y => rbind (map_result f l') (fun ys => Ok (y :: ys)))
  end.

(** The five lists [on_epoch_end] fills. *)
Record Columns : Type := mkColumns {
  images : list (tensor Z);
  coarse : list (tensor Z);
  refined : list (tensor Z);
  masked : list (tensor Z);
  completed : list (tensor Z)
}.

Section DeepFill.

Context {T : Type} `{Sc : Scalar T} `{Nw : Networks T}.

(** The attributes of a [DeepFillV2] instance.  [logger] and [global_step]
    are the ones the trainer provides; [logger] is seen as the calls made
    on it so far.  [invocations] is a ghost attribute: the forward passes
    made so far. *)
Record DeepFillV2 : Type := mkDeepFillV2 {
  hparams : Hparams T;
  net_G : Gnet;
  net_D : Dnet;
  recon_loss : Rloss;
  last_batch : option (Batch T);
  generated_image : option (tensor T);
  generated_image_only_patch : option (tensor T);
  visualization_dataloader : DataLoader T;
  logger : list (LogEntry T);
  global_step : Z;
  invocations : list (Invocation T)
}.

(** ** Methods run on an instance *)

Definition M (A : Type) : Type := DeepFillV2 -> result A * DeepFillV2.

Definition ret {A} (a : A) : M A := fun self => (Ok a, self).

Definition bind {A B} (c : M A) (k : A -> M B) : M B :=
  fun self =>
    match c self with
    | (Ok a, self') => k a self'
    | (Raise e, self') => (Raise e, self')
    end.

Definition lift {A} (r : result A) : M A := fun self => (r, self).

Definition gets {A} (f : DeepFillV2 -> A) : M A := fun self => (Ok (f self), self).

Definition modify (f : DeepFillV2 -> DeepFillV2) : M unit := fun self => (Ok tt, f self).

Declare Scope method_scope.
Delimit Scope method_scope with method.
Notation "x <- c ;; k" := (bind c (fun x => k))
  (at level 61, c at next level, right associativity) : method_scope.
Notation "' pat <- c ;; k" := (bind c (fun x => match x with pat => k end))
  (at level 61, pat pattern, c at next level, right associativity) : method_scope.
Notation "c ;; k" := (bind c (fun _ => k))
  (at level 61, right associativity) : method_scope.
Local Open Scope method_scope.

(** The loop [for x in l: ...] over a body that runs on the instance. *)
Fixpoint for_each_M {A X} (l : list X) (body : A -> X -> M A) (acc : A) : M A :=
  match l with
  | [] => ret acc
  | x :: l' => acc' <- body acc x ;; for_each_M l' body acc'
  end.

(** Assignments to attributes: the instance with one attribute replaced. *)
Definition with_last_batch (v : option (Batch T)) (self : DeepFillV2) : DeepFillV2 :=
  mkDeepFillV2 (hparams self) (net_G self) (net_D self) (recon_loss self)
    v (generated_image self) (generated_image_only_patch self)
    (visualization_dataloader self) (logger self) (global_step self)
    (invocations self).

Definition with_generated_image (v : option (tensor T)) (self : DeepFillV2) : DeepFillV2 :=
  mkDeepFillV2 (hparams self) (net_G self) (net_D self) (recon_loss self)
    (last_batch self) v (generated_image_only_patch self)
    (visualization_dataloader self) (logger self) (global_step self)
    (invocations self).

Definition with_generated_image_only_patch (v : option (tensor T)) (self : DeepFillV2)
  : DeepFillV2 :=
  mkDeepFillV2 (hparams self) (net_G self) (net_D self) (recon_loss self)
    (last_batch self) (generated_image self) v
    (visualization_dataloader self) (logger self) (global_step self)
    (invocations self).

(** A call on [self.logger] appends its entry. *)
Definition with_logged (entry : LogEntry T) (self : DeepFillV2) : DeepFillV2 :=
  mkDeepFillV2 (hparams self) (net_G self) (net_D self) (recon_loss self)
    (last_batch self) (generated_image self) (generated_image_only_patch self)
    (visualization_dataloader self) (logger self ++ [entry]) (global_step self)
    (invocations self).

Definition with_invoked (c : Invocation T) (self : DeepFillV2) : DeepFillV2 :=
  mkDeepFillV2 (hparams self) (net_G self) (net_D self) (recon_loss self)
    (last_batch self) (generated_image self) (generated_image_only_patch self)
    (visualization_dataloader self) (logger self) (global_step self)
    (invocations self ++ [c]).

Definition set_last_batch (v : option (Batch T)) : M unit := modify (with_last_batch v).
Definition set_generated_image (v : option (tensor T)) : M unit :=
  modify (with_generated_image v).
Definition set_generated_image_only_patch (v : option (tensor T)) : M unit :=
  modify (with_generated_image_only_patch v).
Definition log (entry : LogEntry T) : M unit := modify (with_logged entry).
Definition invoked (c : Invocation T) : M unit := modify (with_invoked c).

(** [self.net_G(image, mask)], [self.net_D(x)] and [self.recon_loss(...)]. *)
Definition self_net_G (image mask : tensor T) : M (tensor T * tensor T) :=
  invoked (call_net_G image mask) ;;
  g <- gets net_G ;;
  lift (G_forward g image mask).

Definition self_net_D (x : tensor T) : M (tensor T) :=
  invoked (call_net_D x) ;;
  d <- gets net_D ;;
  lift (D_forward d x).

Definition self_recon_loss (image coarse_image refined_image mask : tensor T) : M T :=
  invoked (call_recon_loss image coarse_image refined_image mask) ;;
  r <- gets recon_loss ;;
  lift (R_forward r image coarse_image refined_image mask).

(** The torch operators [*] and [+] on two tensors. *)
Definition tmul : tensor T -> tensor T -> result (tensor T) := binop RuntimeError smul.
Definition tadd : tensor T -> tensor T -> result (tensor T) := binop RuntimeError sadd.

(** [setup_dataloader_for_visualizations], and the bodies of
    [train_dataloader] and [val_dataloader], as functions of
    [self.hparams]: a dataset and a loader are read as the arguments they
    are built with.  The decorator [@pl.data_loader] of the two methods is
    pytorch_lightning's, and what it does with the loader a body returns is
    not part of these definitions. *)
Definition setup_dataloader_for_visualizations (hp : Hparams T) : DataLoader T :=
  let dataset := mkInpaintDataset (dataset hp) (vis_dataset hp) (image_size hp)
                   (bbox_shape hp) (bbox_randomness hp) (bbox_margin hp)
                   (bbox_max_num hp) false in
  mkDataLoader dataset (batch_size hp) false (num_workers hp) false.

Definition train_dataloader : M (DataLoader T) :=
  hp <- gets hparams ;;
  let dataset := mkInpaintDataset (dataset hp) "train" (image_size hp)
                   (bbox_shape hp) (bbox_randomness hp) (bbox_margin hp)
                   (bbox_max_num hp) (overfit hp) in
  ret (mkDataLoader dataset (batch_size hp) true (num_workers hp) true).

Definition val_dataloader : M (DataLoader T) :=
  hp <- gets hparams ;;
  let dataset := mkInpaintDataset (dataset hp) "val" (image_size hp)
                   (bbox_shape hp) (bbox_randomness hp) (bbox_margin hp)
                   (bbox_max_num hp) false in
  ret (mkDataLoader dataset (batch_size hp) false (num_workers hp) false).

(** [DeepFillV2.__init__(args)]. *)
Definition __init__ (args : Hparams T) : DeepFillV2 :=
  mkDeepFillV2
    args
    (InpaintSAGenerator (input_nc args))
    (InpaintSADiscriminator (input_nc args))
    (ReconstructionLoss (l1_c_h args) (l1_c_nh args) (l1_r_h args) (l1_r_nh args))
    None
    None
    None
    (setup_dataloader_for_visualizations args)
    []
    0%Z
    [].

(** [configure_optimizers]. *)
Definition configure_optimizers : M (list (Adam (list Param) T) * list unit) :=
  hp <- gets hparams ;;
  let lr := lr hp in
  let decay := weight_decay hp in
  g <- gets net_G ;;
  opt_g <- lift (torch_optim_Adam (G_parameters g) lr decay) ;;
  d <- gets net_D ;;
  opt_d <- lift (torch_optim_Adam (D_parameters d) (smul (lit 4) lr) decay) ;;
  ret ([opt_g; opt_d], []).

(** [training_step(batch, batch_idx, optimizer_idx)]; the result [None] is
    Python's. *)
Definition training_step (batch : Batch T) (batch_idx optimizer_idx : Z)
  : M (option (StepOutput T)) :=
  let image := batch_image batch in
  let mask := batch_mask batch in
  set_last_batch (Some batch) ;;
  if (optimizer_idx =? 0)%Z then
    (* generator training *)
    '(coarse_image, refined_image) <- self_net_G image mask ;;
    set_generated_image (Some refined_image) ;;
    reconstruction_loss <- self_recon_loss image coarse_image refined_image mask ;;
    completed_image <- lift (a <~ tmul refined_image mask ;;
                             b <~ tmul image (rsub (lit 1) mask) ;;
                             tadd a b)%result ;;
    set_generated_image_only_patch (Some completed_image) ;;
    x <- lift (cat [completed_image; mask] 1) ;;
    d_fake <- self_net_D x ;;
    hp <- gets hparams ;;
    let gen_loss := smul (sneg (gen_loss_alpha hp)) (mean d_fake) in
    let total_loss := sadd gen_loss reconstruction_loss in
    step <- gets global_step ;;
    log (log_generator_losses step gen_loss reconstruction_loss) ;;
    step <- gets global_step ;;
    log (log_total_generator_loss step total_loss) ;;
    ret (Some (mkStepOutput total_loss
                 [("gen_loss"%string, gen_loss);
                  ("recon_loss"%string, reconstruction_loss)]))
  else if (optimizer_idx =? 1)%Z then
    x <- lift (cat [image; mask] 1) ;;
    d_real <- self_net_D x ;;
    patch <- gets generated_image_only_patch ;;
    patch <- lift (match patch with
                   | Some t => Ok (detach t)
                   | None => Raise AttributeError
                   end) ;;
    x <- lift (cat [patch; mask] 1) ;;
    d_fake <- self_net_D x ;;
    let real_loss := mean (tmap relu (rsub (lit 1) d_real)) in
    let fake_loss := mean (tmap relu (radd (lit 1) d_fake)) in
    hp <- gets hparams ;;
    let disc_loss := smul (disc_loss_alpha hp) (sadd real_loss fake_loss) in
    step <- gets global_step ;;
    log (log_total_discriminator_loss step disc_loss) ;;
    step <- gets global_step ;;
    log (log_discriminator_losses step real_loss fake_loss) ;;
    ret (Some (mkStepOutput disc_loss
                 [("d_real_loss"%string, real_loss);
                  ("d_fake_loss"%string, fake_loss)]))
  else ret None.

(** The expression [on_epoch_end] applies to every tile:
    [((np.transpose(a, axes=[1, 2, 0]) * (0.229, 0.224, 0.225)
       + (0.485, 0.456, 0.406)) * 255).astype(np.uint8)]. *)
Definition denormalize (a : tensor T) : result (tensor Z) :=
  (x <~ transpose a [1; 2; 0]%nat ;;
   y <~ binop ValueError smul x (of_tuple [lit 0.229; lit 0.224; lit 0.225]) ;;
   z <~ binop ValueError sadd y (of_tuple [lit 0.485; lit 0.456; lit 0.406]) ;;
   Ok (tmap astype_uint8 (mul_scalar z (lit 255))))%result.

(** The body of [for j in range(batch['image'].size(0))]. *)
Definition append_tiles (image coarse_image refined_image masked_image completed_image : tensor T)
    (acc : Columns) (j : nat) : result Columns :=
  (a <~ getitem image j ;;
   t_image <~ denormalize (numpy (cpu a)) ;;
   a <~ getitem coarse_image j ;;
   t_coarse <~ denormalize a ;;
   a <~ getitem refined_image j ;;
   t_refined <~ denormalize a ;;
   a <~ getitem masked_image j ;;
   t_masked <~ denormalize a ;;
   a <~ getitem completed_image j ;;
   t_completed <~ denormalize a ;;
   Ok (mkColumns (images acc ++ [t_image]) (coarse acc ++ [t_coarse])
         (refined acc ++ [t_refined]) (masked acc ++ [t_masked])
         (completed acc ++ [t_completed])))%result.

(** The body of [for t, batch in enumerate(self.visualization_dataloader)].
    The two assignments into the yielded dictionary are read by this body
    only. *)
Definition visualize_batch (acc : Columns) (batch : Batch T) : M Columns :=
  let image := cuda (batch_image batch) in
  let mask := cuda (batch_mask batch) in
  '(coarse_image, refined_image) <- self_net_G image mask ;;
  completed_image <- lift (a <~ tmul refined_image mask ;;
                           b <~ tmul image (rsub (lit 1) mask) ;;
                           c <~ tadd a b ;;
                           Ok (numpy (cpu c)))%result ;;
  let coarse_image := numpy (cpu coarse_image) in
  let refined_image := numpy (cpu refined_image) in
  masked_image <- lift (b <~ tmul image (rsub (lit 1) mask) ;;
                        tadd b mask)%result ;;
  let masked_image := numpy (cpu masked_image) in
  n <- lift (size image 0) ;;
  lift (for_each (seq 0 n)
          (append_tiles image coarse_image refined_image masked_image completed_image)
          acc).

(** [on_epoch_end]; [yielded] is what iterating
    [self.visualization_dataloader] yields during the call. *)
Definition on_epoch_end (yielded : list (Batch T)) : M unit :=
  acc <- for_each_M yielded visualize_batch (mkColumns [] [] [] [] []) ;;
  visualization <- lift (c_masked <~ vstack (masked acc) ;;
                         c_coarse <~ vstack (coarse acc) ;;
                         c_refined <~ vstack (refined acc) ;;
                         c_completed <~ vstack (completed acc) ;;
                         c_images <~ vstack (images acc) ;;
                         hstack [c_masked; c_coarse; c_refined; c_completed; c_images])%result ;;
  step <- gets global_step ;;
  log (log_image T step visualization).

(** The calls a trainer makes on the instance, and the instance they
    leave behind, whether they return or raise. *)
Inductive Call : Type :=
| call_training_step (batch : Batch T) (batch_idx optimizer_idx : Z)
| call_configure_optimizers
| call_on_epoch_end (yielded : list (Batch T))
| call_train_dataloader
| call_val_dataloader.

Definition perform (c : Call) (self : DeepFillV2) : DeepFillV2 :=
  match c with
  | call_training_step batch batch_idx optimizer_idx =>
      snd (training_step batch batch_idx optimizer_idx self)
  | call_configure_optimizers => snd (configure_optimizers self)
  | call_on_epoch_end yielded => snd (on_epoch_end yielded self)
  | call_train_dataloader => snd (train_dataloader self)
  | call_val_dataloader => snd (val_dataloader self)
  end.

Definition perform_all (calls : list Call) (self : DeepFillV2) : DeepFillV2 :=
  fold_left (fun s c => perform c s) calls self.

(** ** The quantities of the specification *)

(** The completed image: [refined_image * mask + image * (1 - mask)]. *)
Definition blend (refined_image image mask : tensor T) : result (tensor T) :=
  (a <~ tmul refined_image mask ;;
   b <~ tmul image (rsub (lit 1) mask) ;;
   tadd a b)%result.

(** The adversarial generator loss: minus [alpha] times the mean score. *)
Definition adversarial_generator_loss (alpha : T) (d_fake : tensor T) : T :=
  smul (sneg alpha) (mean d_fake).

(** The two hinge terms and the discriminator loss. *)
Definition hinge_real (d_real : tensor T) : T := mean (tmap relu (rsub (lit 1) d_real)).
Definition hinge_fake (d_fake : tensor T) : T := mean (tmap relu (radd (lit 1) d_fake)).
Definition hinge_discriminator_loss (alpha : T) (d_real d_fake : tensor T) : T :=
  smul alpha (sadd (hinge_real d_real) (hinge_fake d_fake)).

(** The masked input: [image * (1 - mask) + mask]. *)
Definition masked_input (image mask : tensor T) : result (tensor T) :=
  (b <~ tmul image (rsub (lit 1) mask) ;;
   tadd b mask)%result.

(** The visualization read sample by sample: a sample contributes one
    tile to each of the five columns. *)
Record Row : Type := mkRow {
  row_image : tensor Z;
  row_coarse : tensor Z;
  row_refined : tensor Z;
  row_masked : tensor Z;
  row_completed : tensor Z
}.

Definition tile (x : tensor T) (j : nat) : result (tensor Z) :=
  (a <~ getitem x j ;; denormalize a)%result.

Definition row (image coarse_image refined_image masked_image completed_image : tensor T)
    (j : nat) : result Row :=
  (t_image <~ tile image j ;;
   t_coarse <~ tile coarse_image j ;;
   t_refined <~ tile refined_image j ;;
   t_masked <~ tile masked_image j ;;
   t_completed <~ tile completed_image j ;;
   Ok (mkRow t_image t_coarse t_refined t_masked t_completed))%result.

Definition append_rows (acc : Columns) (rows : list Row) : Columns :=
  mkColumns (images acc ++ map row_image rows)
            (coarse acc ++ map row_coarse rows)
            (refined acc ++ map row_refined rows)
            (masked acc ++ map row_masked rows)
            (completed acc ++ map row_completed rows).

(** The rows of one batch for the generator [g], and of all batches. *)
Definition batch_rows (g : Gnet) (batch : Batch T) : result (list Row) :=
  let image := batch_image batch in
  let mask := batch_mask batch in
  (out <~ G_forward g image mask ;;
   completed_image <~ blend (snd out) image mask ;;
   masked_image <~ masked_input image mask ;;
   n <~ size image 0 ;;
   map_result (row image (fst out) (snd out) masked_image completed_image) (seq 0 n))%result.

Definition all_rows (g : Gnet) (yielded : list (Batch T)) : result (list Row) :=
  (rss <~ map_result (batch_rows g) yielded ;; Ok (concat rss))%result.

(** The grid of the rows: five columns side by side, each the tiles of
    all samples one below the other. *)
Definition grid_of_rows (rows : list Row) : result (tensor Z) :=
  (c_masked <~ vstack (map row_masked rows) ;;
   c_coarse <~ vstack (map row_coarse rows) ;;
   c_refined <~ vstack (map row_refined rows) ;;
   c_completed <~ vstack (map row_completed rows) ;;
   c_images <~ vstack (map row_image rows) ;;
   hstack [c_masked; c_coarse; c_refined; c_completed; c_images])%result.

Definition visualization (g : Gnet) (yielded : list (Batch T)) : result (tensor Z) :=
  (rows <~ all_rows g yielded ;; grid_of_rows rows)%result.

(** A batch [on_epoch_end] can draw with tiles of [H] by [W] pixels: RGB
    images with a one-channel mask, at least one of them, on which the
    generator [g] returns outputs of the shape of the images. *)
Definition visualizable (g : Gnet) (H W : nat) (batch : Batch T) : Prop :=
  exists N coarse_image refined_image,
    (0 < N)%nat /\
    shape (batch_image batch) = [N; 3%nat; H; W] /\
    shape (batch_mask batch) = [N; 1%nat; H; W] /\
    G_forward g (batch_image batch) (batch_mask batch) = Ok (coarse_image, refined_image) /\
    shape coarse_image = [N; 3%nat; H; W] /\
    shape refined_image = [N; 3%nat; H; W].

Definition tiles_shaped (H W : nat) (r : Row) : Prop :=
  shape (row_image r) = [H; W; 3%nat] /\
  shape (row_coarse r) = [H; W; 3%nat] /\
  shape (row_refined r) = [H; W; 3%nat] /\
  shape (row_masked r) = [H; W; 3%nat] /\
  shape (row_completed r) = [H; W; 3%nat].

(** The rows [rs] are those of [batch]: sample [j] gives the tiles of the
    masked input, of the two outputs of the generator [g], of the completed
    image and of the image at [j]. *)
Definition rows_of (g : Gnet) (batch : Batch T) (rs : list Row) : Prop :=
  exists coarse_image refined_image completed_image masked_image n,
    G_forward g (batch_image batch) (batch_mask batch) = Ok (coarse_image, refined_image) /\
    blend refined_image (batch_image batch) (batch_mask batch) = Ok completed_image /\
    masked_input (batch_image batch) (batch_mask batch) = Ok masked_image /\
    size (batch_image batch) 0 = Ok n /\
    Forall2 (fun j r =>
               tile masked_image j = Ok (row_masked r) /\
               tile coarse_image j = Ok (row_coarse r) /\
               tile refined_image j = Ok (row_refined r) /\
               tile completed_image j = Ok (row_completed r) /\
               tile (batch_image batch) j = Ok (row_image r))
            (seq 0 n) rs.

(** The instance a generator step leaves when every call in it returns,
    and the one a discriminator step leaves. *)
Definition after_generator_step (batch : Batch T)
    (coarse_image refined_image completed_image x : tensor T)
    (gen_loss reconstruction_loss : T) (self : DeepFillV2) : DeepFillV2 :=
  with_logged (log_total_generator_loss (global_step self) (sadd gen_loss reconstruction_loss))
    (with_logged (log_generator_losses (global_step self) gen_loss reconstruction_loss)
      (with_invoked (call_net_D x)
        (with_generated_image_only_patch (Some completed_image)
          (with_invoked (call_recon_loss (batch_image batch) coarse_image refined_image
                           (batch_mask batch))
            (with_generated_image (Some refined_image)
              (with_invoked (call_net_G (batch_image batch) (batch_mask batch))
                (with_last_batch (Some batch) self))))))).

Definition after_discriminator_step (batch : Batch T) (x_real x_fake : tensor T)
    (real_loss fake_loss disc_loss : T) (self : DeepFillV2) : DeepFillV2 :=
  with_logged (log_discriminator_losses (global_step self) real_loss fake_loss)
    (with_logged (log_total_discriminator_loss (global_step self) disc_loss)
      (with_invoked (call_net_D x_fake)
        (with_invoked (call_net_D x_real)
          (with_last_batch (Some batch) self)))).

(** What [training_step], called on [self] with [batch] and
    [optimizer_idx], may hand to the discriminator: in the generator step
    the completed image with the mask; in the discriminator step the image
    of the batch with the mask, and the stored completed image, detached,
    with the mask. *)
Inductive discriminator_input (self : DeepFillV2) (batch : Batch T) (optimizer_idx : Z)
  : tensor T -> Prop :=
| generator_fake_pass (coarse_image refined_image completed_image x : tensor T) :
    optimizer_idx = 0%Z ->
    G_forward (net_G self) (batch_image batch) (batch_mask batch)
      = Ok (coarse_image, refined_image) ->
    blend refined_image (batch_image batch) (batch_mask batch) = Ok completed_image ->
    cat [completed_image; batch_mask batch] 1 = Ok x ->
    discriminator_input self batch optimizer_idx x
| discriminator_real_pass (x : tensor T) :
    optimizer_idx = 1%Z ->
    cat [batch_image batch; batch_mask batch] 1 = Ok x ->
    discriminator_input self batch optimizer_idx x
| discriminator_fake_pass (patch x : tensor T) :
    optimizer_idx = 1%Z ->
    generated_image_only_patch self = Some patch ->
    cat [detach patch; batch_mask batch] 1 = Ok x ->
    discriminator_input self batch optimizer_idx x.



Definition is_generator_call (c : Invocation T) : bool :=
  match c with
  | call_net_G _ _ => true
  | _ => false
  end.

(** A method leaves the attribute read by [f] as it found it. *)
Definition keeps {A X} (f : DeepFillV2 -> X) (c : M A) : Prop :=
  forall self, f (snd (c self)) = f self.

(** The calls that run the generator step. *)
Definition is_generator_step (c : Call) : bool :=
  match c with
  | call_training_step _ _ optimizer_idx => (optimizer_idx =? 0)%Z
  | _ => false
  end.

(** A method only appends to the list read by [f], and what it appends
    satisfies [P]. *)
Definition appends {A X} (f : DeepFillV2 -> list X) (P : X -> Prop) (c : M A) : Prop :=
  forall self, exists new, f (snd (c self)) = f self ++ new /\ Forall P new.

End DeepFill.

(** ** Reconstruction loss *)

Section Reconstruction.

Context {T : Type} `{Sc : Scalar T}.

(** Modelled from the spec: [util.loss.ReconstructionLoss] is imported by
    the module and is not among its sources.  The spec describes it as a
    "weighted L1 loss inside/outside the masked region, separately for
    coarse and refined outputs", with the "L1 distance computed separately
    inside vs. outside the inpainted region" and the four terms
    "independently weighted". *)
Record ReconLoss : Type := mkReconLoss {
  coarse_hole_alpha : T;
  coarse_nonhole_alpha : T;
  refined_hole_alpha : T;
  refined_nonhole_alpha : T
}.

(** Modelled from the spec: the "L1 distance computed separately inside
    vs. outside the inpainted region", as the mean absolute difference
    between [image] and [output] over the entries that [region] marks
    with 1. *)
Definition l1_region (image output region : tensor T) : result T :=
  (d <~ binop RuntimeError ssub image output ;;
   w <~ binop RuntimeError smul (tmap sabs d) region ;;
   Ok (mean w))%result.

(** Modelled from the spec: the forward pass of
    [util.loss.ReconstructionLoss], "coarse + refined, masked + unmasked
    regions, independently weighted". *)
Definition ReconLoss_forward (r : ReconLoss) (image coarse_image refined_image mask : tensor T)
  : result T :=
  (c_h <~ l1_region image coarse_image mask ;;
   c_nh <~ l1_region image coarse_image (rsub (lit 1) mask) ;;
   r_h <~ l1_region image refined_image mask ;;
   r_nh <~ l1_region image refined_image (rsub (lit 1) mask) ;;
   Ok (sadd (sadd (sadd (smul (coarse_hole_alpha r) c_h)
                        (smul (coarse_nonhole_alpha r) c_nh))
                  (smul (refined_hole_alpha r) r_h))
            (smul (refined_nonhole_alpha r) r_nh)))%result.

(** The module with [util.loss.ReconstructionLoss] read as above, whatever
    the generator and the discriminator are. *)
Definition with_reconstruction_loss (Nw : Networks T) : Networks T := {|
  Gnet := @Gnet T Nw;
  Dnet := @Dnet T Nw;
  Rloss := ReconLoss;
  Param := @Param T Nw;
  InpaintSAGenerator := @InpaintSAGenerator T Nw;
  InpaintSADiscriminator := @InpaintSADiscriminator T Nw;
  ReconstructionLoss := mkReconLoss;
  G_forward := @G_forward T Nw;
  D_forward := @D_forward T Nw;
  R_forward := ReconLoss_forward;
  G_parameters := @G_parameters T Nw;
  D_parameters := @D_parameters T Nw
|}.

End Reconstruction.

(** ** Exact rationals as scalars, and a small pair of networks *)

Module Exact.

Local Open Scope Q_scope.

Definition Qc_leb (x y : Qc) : bool := Qle_bool x y.

#[export] Instance Scalar_Qc : Scalar Qc := {
  lit := Q2Qc;
  sadd := Qcplus;
  ssub := Qcminus;
  smul := Qcmult;
  sdiv := Qcdiv;
  sneg := Qcopp;
  sabs := fun x => if Qc_leb (Q2Qc 0) x then x else Qcopp x;
  sleb := Qc_leb;
  trunc := fun x => Z.quot (Qnum x) (Zpos (Qden x))
}.

(** A generator that returns the image itself as coarse output and the
    image plus its input channel count as refined output, a critic that
    scores every entry by itself, and the reconstruction loss above. *)
#[export] Instance Networks_Qc : Networks Qc := {
  Gnet := Z;
  Dnet := Z;
  Rloss := @ReconLoss Qc;
  Param := string * Z;
  InpaintSAGenerator := fun input_nc => input_nc;
  InpaintSADiscriminator := fun input_nc => input_nc;
  ReconstructionLoss := @mkReconLoss Qc;
  G_forward := fun g image mask =>
    Ok (image, tmap (fun x => Qcplus x (Q2Qc (inject_Z g))) image);
  D_forward := fun d x => Ok x;
  R_forward := ReconLoss_forward;
  G_parameters := fun g => [("net_G"%string, g)];
  D_parameters := fun d => [("net_D"%string, d)]
}.

(** Tensors written out entry by entry: [N,C,H,W] from nested lists. *)
Definition nth4 (l : list (list (list (list Q)))) (i : list nat) : Qc :=
  match i with
  | [n; c; h; w] => Q2Qc (nth w (nth h (nth c (nth n l []) []) []) 0)
  | _ => Q2Qc 0
  end.

Definition of_nested (s : list nat) (l : list (list (list (list Q)))) : tensor Qc :=
  mkTensor s (nth4 l).

Definition args0 : Hparams Qc :=
  mkHparams 3%Z (Q2Qc 1.2) (Q2Qc 1.2) (Q2Qc 1.2) (Q2Qc 1.2)
    (Q2Qc 0.0001) (Q2Qc 0) (Q2Qc 1) (Q2Qc 1)
    "places" "val" 256%Z 128%Z (Q2Qc 0.25) 10%Z 2%Z false 16%Z 4%Z "run" 5%Z 100%Z.

(** One image of one channel and 1x2 pixels, the second pixel masked. *)
Definition batch0 : Batch Qc :=
  mkBatch (of_nested [1; 1; 1; 2]%nat [[[[0.5; 0.25]]]])
          (of_nested [1; 1; 1; 2]%nat [[[[0; 1]]]]).

(** One image of three channels and 1x2 pixels, the second pixel masked. *)
Definition batch1 : Batch Qc :=
  mkBatch (of_nested [1; 3; 1; 2]%nat [[[[0.5; 0.25]]; [[0.125; 0.75]]; [[0; 1]]]])
          (of_nested [1; 1; 1; 2]%nat [[[[0; 1]]]]).

(** The run of a generator step and then a discriminator step on
    [batch0], from a fresh instance. *)
Definition unwrap {A} (d : A) (r : result A) : A :=
  match r with Ok a => a | Raise _ => d end.

Definition self0 : DeepFillV2 := __init__ args0.
Definition image0 : tensor Qc := batch_image batch0.
Definition mask0 : tensor Qc := batch_mask batch0.
Definition refined0 : tensor Qc :=
  tmap (fun x => Qcplus x (Q2Qc (inject_Z 3))) image0.
Definition recon0 : Qc :=
  unwrap (Q2Qc 0) (ReconLoss_forward (recon_loss self0) image0 image0 refined0 mask0).
Definition completed0 : tensor Qc := unwrap refined0 (blend refined0 image0 mask0).
Definition fake0 : tensor Qc := unwrap completed0 (cat [completed0; mask0] 1).
Definition real0 : tensor Qc := unwrap image0 (cat [image0; mask0] 1).
Definition self1 : DeepFillV2 := snd (training_step batch0 0 0 self0).


End Exact.

Import Exact.

(** ** Binary64 floats as scalars *)

Module IEEE.

Import PrimFloat FloatOps SpecFloat.

(** The float of an integer, and the float of a rational as the quotient
    of the floats of its numerator and its denominator: 0.229 is the float
    nearest to 229/1000. *)
Definition of_Z (z : Z) : float := SF2Prim (binary_normalize prec emax z 0 false).
Definition of_Q (q : Q) : float := div (of_Z (Qnum q)) (of_Z (Zpos (Qden q))).

(** The integer part of a float.  That of an infinity or of NaN, which a
    cast leaves to the platform, is read as 0. *)
Definition to_Z (x : float) : Z :=
  match Prim2SF x with
  | S754_finite s m e => if s then (- Z.shiftl (Zpos m) e)%Z else Z.shiftl (Zpos m) e
  | _ => 0%Z
  end.

#[export] Instance Scalar_float : Scalar float := {
  lit := of_Q;
  sadd := add;
  ssub := sub;
  smul := mul;
  sdiv := div;
  sneg := opp;
  sabs := abs;
  sleb := leb;
  trunc := to_Z
}.

(** A generator that returns the image itself as coarse output and the
    reciprocal of every entry as refined output, an infinity for the entry
    0; a critic that scores every entry by itself, and the reconstruction
    loss above. *)
#[export] Instance Networks_float : Networks float := {
  Gnet := Z;
  Dnet := Z;
  Rloss := @ReconLoss float;
  Param := string * Z;
  InpaintSAGenerator := fun input_nc => input_nc;
  InpaintSADiscriminator := fun input_nc => input_nc;
  ReconstructionLoss := @mkReconLoss float;
  G_forward := fun g image mask => Ok (image, tmap (fun x => div one x) image);
  D_forward := fun d x => Ok x;
  R_forward := ReconLoss_forward;
  G_parameters := fun g => [("net_G"%string, g)];
  D_parameters := fun d => [("net_D"%string, d)]
}.

Definition of_exact (t : tensor Qc) : tensor float := tmap (fun q : Qc => of_Q (this q)) t.

Definition args_float : Hparams float :=
  mkHparams 3%Z (of_Q 1.2) (of_Q 1.2) (of_Q 1.2) (of_Q 1.2)
    (of_Q 0.0001) (of_Q 0) (of_Q 1) (of_Q 1)
    "places" "val" 256%Z 128%Z (of_Q 0.25) 10%Z 2%Z false 16%Z 4%Z "run" 5%Z 100%Z.

Definition self_float : DeepFillV2 := __init__ args_float.

(** The batch [batch0] in floats: the pixels 0.5 and 0.25, the second one
    masked; the refined output is 2 and 4. *)
Definition batch_finite : Batch float :=
  mkBatch (of_exact (batch_image batch0)) (of_exact (batch_mask batch0)).

Definition refined_finite : tensor float :=
  tmap (fun x => div one x) (batch_image batch_finite).

Definition recon_finite : float :=
  unwrap zero (ReconLoss_forward (recon_loss self_float) (batch_image batch_finite)
                 (batch_image batch_finite) refined_finite (batch_mask batch_finite)).

(** The pixels 0 and 0.25, the second one masked: the refined output is
    an infinity at the first pixel, where the mask is 0. *)
Definition batch_infinite : Batch float :=
  mkBatch (of_exact (of_nested [1; 1; 1; 2]%nat [[[[0; 0.25]]]]%Q))
          (of_exact (batch_mask batch0)).

Definition refined_infinite : tensor float :=
  tmap (fun x => div one x) (batch_image batch_infinite).

Definition completed_infinite : tensor float :=
  unwrap refined_infinite
    (blend refined_infinite (batch_image batch_infinite) (batch_mask batch_infinite)).

End IEEE.

Import IEEE.

(** ** The script *)

(** [posixpath.join(a, *p)]: a component that starts with the separator
    replaces what was joined so far; otherwise it is appended, after a
    separator unless the path so far is empty or ends with one. *)
Definition startswith_sep (s : string) : bool :=
  match s with
  | String c _ => Ascii.eqb c "/"%char
  | EmptyString => false
  end.

Fixpoint endswith_sep (s : string) : bool :=
  match s with
  | EmptyString => false
  | String c EmptyString => Ascii.eqb c "/"%char
  | String _ s' => endswith_sep s'
  end.

Definition join_step (path b : string) : string :=
  if startswith_sep b then b
  else if (match path with EmptyString => true | _ => false end) || endswith_sep path
       then (path ++ b)%string
       else (path ++ "/" ++ b)%string.

Definition os_path_join (a : string) (p : list string) : string :=
  fold_left join_step p a.

(** The keyword arguments the script passes to
    [NestedFolderTensorboardLogger], [ModelCheckpoint] and [Trainer]. *)
Record NestedFolderTensorboardLogger : Type := mkLogger {
  save_dir : string;
  name : string
}.

Record ModelCheckpoint : Type := mkModelCheckpoint {
  filepath : string;
  save_best_only : bool;
  verbose : bool;
  period : Z
}.

Record Trainer : Type := mkTrainer {
  gpus : list Z;
  early_stop_callback : option unit;
  nb_sanity_val_steps : Z;
  trainer_logger : NestedFolderTensorboardLogger;
  checkpoint_callback : ModelCheckpoint;
  max_nb_epochs : Z;
  check_val_every_n_epoch : Z
}.

Section Script.

Context {T : Type} `{Nw : Networks T}.

(** The block under [if __name__ == '__main__'], up to [trainer.fit(model)]:
    the model and the trainer it is fitted with.  [RUNS_FOLDER] is
    [util.constants.RUNS_FOLDER], [args] what [parse_arguments()] returned. *)
Definition main (RUNS_FOLDER : string) (args : Hparams T) : DeepFillV2 * Trainer :=
  let logger := mkLogger (os_path_join RUNS_FOLDER [dataset args]) (experiment args) in
  let checkpoint_callback :=
    mkModelCheckpoint (os_path_join RUNS_FOLDER [dataset args; experiment args])
      false false (save_epoch args) in
  let model := __init__ args in
  let trainer := mkTrainer [0%Z] None 3%Z logger checkpoint_callback (max_epoch args) 2%Z in
  (model, trainer).

(** The sum of the first dimensions of the images of the batches: the
    number of samples a loader yielded. *)
Definition samples (yielded : list (Batch T)) : nat :=
  list_sum (map (fun b => nth 0 (shape (batch_image b)) 0%nat) yielded).

(** The calls that leave the stored completed image alone: every call but
    a generator step. *)
Definition no_generator_step (calls : list (@Call T)) : Prop :=
  Forall (fun c => is_generator_step c = false) calls.

End Script.

(** A critic's scores on two entries, on the right side of both margins. *)
Module Scores.

Local Open Scope Q_scope.

Definition separated_real : tensor Qc :=
  mkTensor [2%nat] (fun i => nth (hd 0%nat i) [Q2Qc 1; Q2Qc 2.5] (Q2Qc 0)).

Definition separated_fake : tensor Qc :=
  mkTensor [2%nat] (fun i => nth (hd 0%nat i) [Q2Qc (-1); Q2Qc (-3)] (Q2Qc 0)).

(** A critic that scores an input whose second pixel is at most 1, as the
    image of [batch0], as [separated_real], and any other input as
    [separated_fake]. *)
Definition Networks_separating : Networks Qc := {|
  Gnet := Z;
  Dnet := Z;
  Rloss := @ReconLoss Qc;
  Param := string * Z;
  InpaintSAGenerator := fun input_nc => input_nc;
  InpaintSADiscriminator := fun input_nc => input_nc;
  ReconstructionLoss := @mkReconLoss Qc;
  G_forward := fun g image mask =>
    Ok (image, tmap (fun x => Qcplus x (Q2Qc (inject_Z g))) image);
  D_forward := fun d x =>
    if Qc_leb (get x [0; 0; 0; 1]%nat) (Q2Qc 1) then Ok separated_real
    else Ok separated_fake;
  R_forward := ReconLoss_forward;
  G_parameters := fun g => [("net_G"%string, g)];
  D_parameters := fun d => [("net_D"%string, d)]
|}.

(** Four-channel images, which the three-entry tuples of [on_epoch_end]
    do not fit. *)
Definition batch_rgba : Batch Qc :=
  mkBatch (of_nested [1; 4; 1; 1]%nat [[[[0.5]]; [[0.25]]; [[0.125]]; [[1]]]])
          (of_nested [1; 1; 1; 1]%nat [[[[1]]]]).

(** A second batch of the shape of [batch0], with the first pixel masked. *)
Definition batch2 : Batch Qc :=
  mkBatch (of_nested [1; 1; 1; 2]%nat [[[[0.75; 0.125]]]])
          (of_nested [1; 1; 1; 2]%nat [[[[1; 0]]]]).

(** The discriminator step on [batch2] after a generator step on
    [batch0]: its real input, and its fake input from the image stored by
    the generator step. *)
Definition real2 : tensor Qc :=
  unwrap (batch_image batch2) (cat [batch_image batch2; batch_mask batch2] 1).
Definition stale2 : tensor Qc :=
  unwrap completed0 (cat [detach completed0; batch_mask batch2] 1).

(** Calls that are not generator steps. *)
Definition other_calls : list (@Call Qc) :=
  [call_training_step batch0 0 1; call_on_epoch_end [batch1]; call_configure_optimizers].

(** An instance of the separating critic that holds [completed0]. *)
Definition self_separating : @DeepFillV2 Qc Networks_separating :=
  with_generated_image_only_patch (Some completed0)
    (@__init__ Qc Networks_separating args0).

End Scores.

(** * Properties *)

Unset Implicit Arguments.

Section Tensors.

Context {A : Type}.

Lemma nth_set_nth (k v : nat) (l : list nat) :
  (k < length l)%nat -> nth k (set_nth k v l) 0%nat = v.
Proof.
  intros Hk. unfold set_nth.
  rewrite app_nth2; rewrite length_firstn, Nat.min_l by lia; [| lia].
  rewrite Nat.sub_diag. reflexivity.
Qed.

(** [torch.cat((a, b), dim=1)] puts the channels of [b] after those of
    [a]. *)
Lemma cat_pair_channels (a b x : tensor A) :
  cat [a; b] 1 = Ok x ->
  nth 1 (shape x) 0%nat = (nth 1 (shape a) 0 + nth 1 (shape b) 0)%nat /\
  (forall n c rest, (c < nth 1 (shape a) 0)%nat ->
     get x (n :: c :: rest) = get a (n :: c :: rest)) /\
  (forall n c rest,
     get x (n :: (nth 1 (shape a) 0 + c)%nat :: rest) = get b (n :: c :: rest)).
Proof.
  unfold cat, concatenate.
  destruct ((1 <? length (shape a))%nat &&
            forallb (fun t' => same_off_axis 1 (shape a) (shape t')) [b]) eqn:E;
    [| discriminate].
  intros Hx. injection Hx as <-. cbn [shape get].
  apply andb_prop in E. destruct E as [Hrank _]. apply Nat.ltb_lt in Hrank.
  repeat split.
  - rewrite nth_set_nth by exact Hrank. unfold axis_total. simpl. lia.
  - intros n c rest Hc. cbn [cat_get nth].
    apply Nat.ltb_lt in Hc. rewrite Hc. reflexivity.
  - intros n c rest. cbn [cat_get nth].
    assert (Hge : ((nth 1 (shape a) 0 + c <? nth 1 (shape a) 0) = false)%nat)
      by (apply Nat.ltb_ge; lia).
    rewrite Hge. unfold set_nth. cbn [firstn skipn app].
    replace (nth 1 (shape a) 0 + c - nth 1 (shape a) 0)%nat with c by lia.
    reflexivity.
Qed.

Lemma length_set_nth (k v : nat) (l : list nat) :
  (k < length l)%nat -> length (set_nth k v l) = length l.
Proof.
  intros Hk. unfold set_nth.
  rewrite length_app, length_firstn. cbn [length]. rewrite length_skipn. lia.
Qed.

Lemma set_nth_same (k v : nat) (l : list nat) :
  (k < length l)%nat -> nth k l 0%nat = v -> set_nth k v l = l.
Proof.
  revert l. induction k as [| k IH]; intros [| x l] Hk Hv; simpl in *; try lia.
  - subst. reflexivity.
  - unfold set_nth in *. simpl. f_equal. apply IH; [lia | exact Hv].
Qed.

Lemma set_nth_set_nth (k v w : nat) (l : list nat) :
  (k < length l)%nat -> set_nth k w (set_nth k v l) = set_nth k w l.
Proof.
  revert l. induction k as [| k IH]; intros [| x l] Hk; simpl in *; try lia.
  - reflexivity.
  - unfold set_nth in *. simpl. f_equal. apply IH. lia.
Qed.

(** In a concatenation of tensors that all have [d] entries along the
    axis, the entry at position [k * d + r] of the axis is the entry at
    position [r] of the tensor number [k]. *)
Lemma cat_get_uniform (axis d : nat) (ts : list (tensor A)) :
  forall (t : tensor A) (k r : nat) (i : list nat),
    Forall (fun t' => nth axis (shape t') 0%nat = d) (t :: ts) ->
    (axis < length i)%nat ->
    nth axis i 0%nat = (k * d + r)%nat ->
    (r < d)%nat ->
    (k < length (t :: ts))%nat ->
    forall dflt, cat_get axis t ts i = get (nth k (t :: ts) dflt) (set_nth axis r i).
Proof.
  induction ts as [| t' ts IH]; intros t k r i Hall Hax Hi Hr Hk dflt.
  - simpl in Hk. assert (k = 0)%nat by lia. subst k. simpl in *.
    rewrite set_nth_same; [reflexivity | exact Hax | lia].
  - cbn [cat_get].
    pose proof (Forall_inv Hall) as Hd. pose proof (Forall_inv_tail Hall) as Hall'.
    pose proof (Forall_inv Hall') as Hd'. cbn beta in Hd, Hd'.
    rewrite Hd, Hi. destruct k as [| k].
    + assert (E : ((0 * d + r <? d) = true)%nat) by (apply Nat.ltb_lt; lia).
      rewrite E. cbn [nth]. rewrite set_nth_same; [reflexivity | exact Hax | lia].
    + assert (E : ((S k * d + r <? d) = false)%nat) by (apply Nat.ltb_ge; lia).
      rewrite E.
      rewrite (IH t' k r (set_nth axis (S k * d + r - d) i)) with (dflt := dflt).
      * cbn [nth]. rewrite set_nth_set_nth by exact Hax. reflexivity.
      * exact Hall'.
      * rewrite length_set_nth; assumption.
      * rewrite nth_set_nth by exact Hax. lia.
      * exact Hr.
      * simpl in Hk |- *. lia.
Qed.

Lemma axis_total_uniform (axis d : nat) (ts : list (tensor A)) :
  Forall (fun t' => nth axis (shape t') 0%nat = d) ts ->
  axis_total axis ts = (length ts * d)%nat.
Proof.
  induction 1 as [| t ts Hd _ IH]; simpl.
  - reflexivity.
  - rewrite Hd, IH. reflexivity.
Qed.

Lemma same_off_axis_refl (axis : nat) (s : list nat) : same_off_axis axis s s = true.
Proof.
  unfold same_off_axis. rewrite Nat.eqb_refl. simpl.
  apply forallb_forall. intros k _. rewrite Nat.eqb_refl. apply orb_true_r.
Qed.

(** Concatenating tensors of one shape along an axis of that shape. *)
Lemma concatenate_uniform (e : exn) (axis : nat) (s : list nat) (ts : list (tensor A)) :
  ts <> [] ->
  (axis < length s)%nat ->
  Forall (fun t => shape t = s) ts ->
  exists v,
    concatenate e ts axis = Ok v /\
    shape v = set_nth axis (length ts * nth axis s 0)%nat s /\
    forall k r i,
      (k < length ts)%nat -> (r < nth axis s 0)%nat ->
      length i = length s ->
      nth axis i 0%nat = (k * nth axis s 0 + r)%nat ->
      forall dflt, get v i = get (nth k ts dflt) (set_nth axis r i).
Proof.
  intros Hne Hax Hall. destruct ts as [| t ts]; [contradiction |].
  assert (Hd : Forall (fun t' => nth axis (shape t') 0%nat = nth axis s 0%nat) (t :: ts)).
  { eapply Forall_impl; [| exact Hall]. intros t' ->. reflexivity. }
  inversion Hall as [| ? ? Ht Hts]; subst.
  unfold concatenate.
  assert (E1 : ((axis <? length (shape t)) = true)%nat) by (apply Nat.ltb_lt; exact Hax).
  assert (E2 : forallb (fun t' => same_off_axis axis (shape t) (shape t')) ts = true).
  { apply forallb_forall. intros t' Hin.
    rewrite Forall_forall in Hts. rewrite (Hts t' Hin). apply same_off_axis_refl. }
  rewrite E1, E2. cbn [andb]. eexists. split; [reflexivity |]. cbn [shape get]. split.
  - rewrite (axis_total_uniform axis _ (t :: ts) Hd). reflexivity.
  - intros k r i Hk Hr Hlen Hi dflt.
    apply (cat_get_uniform axis (nth axis (shape t) 0%nat) ts t k r i); try assumption.
    rewrite Hlen. exact Hax.
Qed.

Lemma broadcast_dim_same (d : nat) : broadcast_dim d d = Some d.
Proof. unfold broadcast_dim. rewrite Nat.eqb_refl. reflexivity. Qed.

Lemma broadcast_dim_one_r (d : nat) : broadcast_dim d 1 = Some d.
Proof.
  unfold broadcast_dim. destruct (d =? 1)%nat; reflexivity.
Qed.

Lemma clip_in_range (d k : nat) :
  (k < d)%nat -> (if (d =? 1)%nat then 0%nat else k) = k.
Proof.
  intros Hk. destruct (d =? 1)%nat eqn:E; [| reflexivity].
  apply Nat.eqb_eq in E. lia.
Qed.

(** An entrywise operation on an [N,C,H,W] tensor and an [N,1,H,W]
    tensor: the single channel of the second is read for every channel of
    the first. *)
Lemma binop_image_mask (e : exn) (f : A -> A -> A) (a b : tensor A) (N C H W : nat) :
  shape a = [N; C; H; W] ->
  shape b = [N; 1%nat; H; W] ->
  exists t,
    binop e f a b = Ok t /\
    shape t = [N; C; H; W] /\
    forall n c h w, (n < N)%nat -> (c < C)%nat -> (h < H)%nat -> (w < W)%nat ->
      get t [n; c; h; w] = f (get a [n; c; h; w]) (get b [n; 0%nat; h; w]).
Proof.
  intros Ha Hb. unfold binop, broadcast_shapes. rewrite Ha, Hb.
  cbn [rev app broadcast_rev].
  rewrite !broadcast_dim_same, broadcast_dim_one_r. cbn [option_map rev app].
  eexists. split; [reflexivity |]. split; [reflexivity |].
  intros n c h w Hn Hc Hh Hw. cbn [get]. unfold bidx. cbn [rev app bidx_rev].
  rewrite Nat.eqb_refl.
  rewrite (clip_in_range N n Hn), (clip_in_range C c Hc),
    (clip_in_range H h Hh), (clip_in_range W w Hw).
  reflexivity.
Qed.

Lemma binop_same_shape (e : exn) (f : A -> A -> A) (a b : tensor A) (N C H W : nat) :
  shape a = [N; C; H; W] ->
  shape b = [N; C; H; W] ->
  exists t,
    binop e f a b = Ok t /\
    shape t = [N; C; H; W] /\
    forall n c h w, (n < N)%nat -> (c < C)%nat -> (h < H)%nat -> (w < W)%nat ->
      get t [n; c; h; w] = f (get a [n; c; h; w]) (get b [n; c; h; w]).
Proof.
  intros Ha Hb. unfold binop, broadcast_shapes. rewrite Ha, Hb.
  cbn [rev app broadcast_rev].
  rewrite !broadcast_dim_same. cbn [option_map rev app].
  eexists. split; [reflexivity |]. split; [reflexivity |].
  intros n c h w Hn Hc Hh Hw. cbn [get]. unfold bidx. cbn [rev app bidx_rev].
  rewrite (clip_in_range N n Hn), (clip_in_range C c Hc),
    (clip_in_range H h Hh), (clip_in_range W w Hw).
  reflexivity.
Qed.

(** [t[j]] for [j] within the first dimension. *)
Lemma getitem_in_range (t : tensor A) (d : nat) (s : list nat) (j : nat) :
  shape t = d :: s -> (j < d)%nat ->
  getitem t j = Ok (mkTensor s (fun i => get t (j :: i))).
Proof.
  intros Hs Hj. unfold getitem. rewrite Hs.
  apply Nat.ltb_lt in Hj. rewrite Hj. reflexivity.
Qed.

Lemma map_result_all {X Y} (f : X -> result Y) (P : Y -> Prop) (l : list X) :
  (forall x, In x l -> exists y, f x = Ok y /\ P y) ->
  exists ys, map_result f l = Ok ys /\ length ys = length l /\ Forall P ys.
Proof.
  induction l as [| x l IH]; intros Hall; simpl.
  - exists []. repeat split. constructor.
  - destruct (Hall x (or_introl eq_refl)) as (y & Ey & Py).
    destruct IH as (ys & Eys & Lys & Pys); [intros x' Hx'; apply Hall; right; exact Hx' |].
    rewrite Ey. cbn [rbind]. rewrite Eys. cbn [rbind].
    exists (y :: ys). split; [reflexivity |]. split; [simpl; congruence |].
    constructor; assumption.
Qed.

Lemma map_result_inv {X Y} (f : X -> result Y) (l : list X) :
  forall ys, map_result f l = Ok ys -> Forall2 (fun x y => f x = Ok y) l ys.
Proof.
  induction l as [| x l IH]; intros ys Hys; simpl in Hys.
  - injection Hys as <-. constructor.
  - destruct (f x) as [y | e] eqn:Ey; [| discriminate Hys]. cbn [rbind] in Hys.
    destruct (map_result f l) as [ys' | e]; [| discriminate Hys]. cbn [rbind] in Hys.
    injection Hys as <-. constructor; [exact Ey | apply IH; reflexivity].
Qed.

(** [np.vstack] of tiles of one [H,W,K] shape: tile number [s] fills the
    rows from [s * H]. *)
Lemma vstack_tiles (ts : list (tensor A)) (H W K : nat) :
  ts <> [] ->
  Forall (fun t => shape t = [H; W; K]) ts ->
  exists v,
    vstack ts = Ok v /\
    shape v = [(length ts * H)%nat; W; K] /\
    forall s h w c dflt, (s < length ts)%nat -> (h < H)%nat ->
      get v [(s * H + h)%nat; w; c] = get (nth s ts dflt) [h; w; c].
Proof.
  intros Hne Hall. unfold vstack.
  assert (Hid : map atleast_2d ts = ts).
  { rewrite <- (map_id ts) at 2. apply map_ext_in. intros t Hin.
    rewrite Forall_forall in Hall. unfold atleast_2d. rewrite (Hall t Hin). reflexivity. }
  rewrite Hid.
  destruct (concatenate_uniform ValueError 0 [H; W; K] ts Hne ltac:(simpl; lia) Hall)
    as (v & Ev & Sv & Gv).
  exists v. split; [exact Ev |]. split; [exact Sv |].
  intros s h w c dflt Hs Hh.
  apply (Gv s h [(s * H + h)%nat; w; c] Hs Hh eq_refl eq_refl dflt).
Qed.

(** [np.hstack] of five columns of one [R,W,K] shape: column number [k]
    fills the pixel columns from [k * W]. *)
Lemma hstack_columns (c0 c1 c2 c3 c4 : tensor A) (R W K : nat) :
  Forall (fun t => shape t = [R; W; K]) [c0; c1; c2; c3; c4] ->
  exists g,
    hstack [c0; c1; c2; c3; c4] = Ok g /\
    shape g = [R; (5 * W)%nat; K] /\
    forall r w c k dflt, (k < 5)%nat -> (w < W)%nat ->
      get g [r; (k * W + w)%nat; c] = get (nth k [c0; c1; c2; c3; c4] dflt) [r; w; c].
Proof.
  intros Hall. unfold hstack.
  assert (Hid : map atleast_1d [c0; c1; c2; c3; c4] = [c0; c1; c2; c3; c4]).
  { rewrite <- (map_id [c0; c1; c2; c3; c4]) at 2. apply map_ext_in. intros t Hin.
    rewrite Forall_forall in Hall. unfold atleast_1d. rewrite (Hall t Hin). reflexivity. }
  rewrite Hid. rewrite (Forall_inv Hall). cbn [length Nat.eqb].
  destruct (concatenate_uniform ValueError 1 [R; W; K] [c0; c1; c2; c3; c4]
              ltac:(discriminate) ltac:(simpl; lia) Hall) as (g & Eg & Sg & Gg).
  exists g. split; [exact Eg |]. split; [exact Sg |].
  intros r w c k dflt Hk Hw.
  apply (Gg k w [r; (k * W + w)%nat; c] Hk Hw eq_refl eq_refl dflt).
Qed.

End Tensors.

Section Blending.

Context {T : Type} `{Sc : Scalar T}.

(** The completed image, entry by entry. *)
Lemma blend_entries (refined_image image mask : tensor T) (N C H W : nat) :
  shape refined_image = [N; C; H; W] ->
  shape image = [N; C; H; W] ->
  shape mask = [N; 1%nat; H; W] ->
  exists completed_image,
    blend refined_image image mask = Ok completed_image /\
    shape completed_image = [N; C; H; W] /\
    forall n c h w, (n < N)%nat -> (c < C)%nat -> (h < H)%nat -> (w < W)%nat ->
      get completed_image [n; c; h; w]
      = sadd (smul (get refined_image [n; c; h; w]) (get mask [n; 0%nat; h; w]))
             (smul (get image [n; c; h; w]) (ssub (lit 1) (get mask [n; 0%nat; h; w]))).
Proof.
  intros Hr Hi Hm. unfold blend, tmul, tadd.
  destruct (binop_image_mask RuntimeError smul refined_image mask N C H W Hr Hm)
    as (a & Ea & Sa & Ga).
  destruct (binop_image_mask RuntimeError smul image (rsub (lit 1) mask) N C H W Hi Hm)
    as (b & Eb & Sb & Gb).
  destruct (binop_same_shape RuntimeError sadd a b N C H W Sa Sb) as (c & Ec & Sc' & Gc).
  rewrite Ea. cbn [rbind]. rewrite Eb. cbn [rbind].
  exists c. split; [exact Ec |]. split; [exact Sc' |].
  intros n ch h w Hn Hc Hh Hw.
  rewrite Gc, Ga, Gb by assumption. reflexivity.
Qed.

(** The masked input, entry by entry. *)
Lemma masked_input_entries (image mask : tensor T) (N C H W : nat) :
  shape image = [N; C; H; W] ->
  shape mask = [N; 1%nat; H; W] ->
  exists masked_image,
    masked_input image mask = Ok masked_image /\
    shape masked_image = [N; C; H; W] /\
    forall n c h w, (n < N)%nat -> (c < C)%nat -> (h < H)%nat -> (w < W)%nat ->
      get masked_image [n; c; h; w]
      = sadd (smul (get image [n; c; h; w]) (ssub (lit 1) (get mask [n; 0%nat; h; w])))
             (get mask [n; 0%nat; h; w]).
Proof.
  intros Hi Hm. unfold masked_input, tmul, tadd.
  destruct (binop_image_mask RuntimeError smul image (rsub (lit 1) mask) N C H W Hi Hm)
    as (b & Eb & Sb & Gb).
  destruct (binop_image_mask RuntimeError sadd b mask N C H W Sb Hm) as (c & Ec & Sc' & Gc).
  rewrite Eb. cbn [rbind].
  exists c. split; [exact Ec |]. split; [exact Sc' |].
  intros n ch h w Hn Hc Hh Hw.
  rewrite Gc, Gb by assumption. reflexivity.
Qed.

Context {EA : @ExactArith T Sc}.

(** Where the mask is 0 the blend keeps its second operand, where it is 1
    its first. *)
Lemma blend_at_zero (r i : T) :
  sadd (smul r (lit 0)) (smul i (ssub (lit 1) (lit 0))) = i.
Proof. rewrite ssub_1_0, smul_0_r, smul_1_r, sadd_0_l. reflexivity. Qed.

Lemma blend_at_one (r i : T) :
  sadd (smul r (lit 1)) (smul i (ssub (lit 1) (lit 1))) = r.
Proof. rewrite ssub_1_1, smul_0_r, smul_1_r, sadd_0_r. reflexivity. Qed.

Lemma masked_at_zero (i : T) : sadd (smul i (ssub (lit 1) (lit 0))) (lit 0) = i.
Proof. rewrite ssub_1_0, smul_1_r, sadd_0_r. reflexivity. Qed.

Lemma masked_at_one (i : T) : sadd (smul i (ssub (lit 1) (lit 1))) (lit 1) = lit 1.
Proof. rewrite ssub_1_1, smul_0_r, sadd_0_l. reflexivity. Qed.

(** The multi-indices of an [N,C,H,W] shape. *)
Lemma indices_in_range (N C H W : nat) (i : list nat) :
  In i (indices [N; C; H; W]) ->
  exists n c h w,
    i = [n; c; h; w] /\ (n < N)%nat /\ (c < C)%nat /\ (h < H)%nat /\ (w < W)%nat.
Proof.
  cbn [indices]. intros Hin.
  apply in_flat_map in Hin. destruct Hin as (n & Hn & Hin).
  apply in_map_iff in Hin. destruct Hin as (i1 & <- & Hin).
  apply in_flat_map in Hin. destruct Hin as (c & Hc & Hin).
  apply in_map_iff in Hin. destruct Hin as (i2 & <- & Hin).
  apply in_flat_map in Hin. destruct Hin as (h & Hh & Hin).
  apply in_map_iff in Hin. destruct Hin as (i3 & <- & Hin).
  apply in_flat_map in Hin. destruct Hin as (w & Hw & Hin).
  apply in_map_iff in Hin. destruct Hin as (i4 & <- & Hin).
  destruct Hin as [<- | []].
  apply in_seq in Hn, Hc, Hh, Hw.
  exists n, c, h, w. repeat split; lia.
Qed.

(** Two tensors of one [N,C,H,W] shape with the same entries have the
    same mean. *)
Lemma mean_ext (a b : tensor T) (N C H W : nat) :
  shape a = [N; C; H; W] ->
  shape b = [N; C; H; W] ->
  (forall n c h w, (n < N)%nat -> (c < C)%nat -> (h < H)%nat -> (w < W)%nat ->
     get a [n; c; h; w] = get b [n; c; h; w]) ->
  mean a = mean b.
Proof.
  intros Ha Hb Hab. unfold mean, elements, numel. rewrite Ha, Hb.
  f_equal. f_equal. apply map_ext_in. intros i Hin.
  destruct (indices_in_range N C H W i Hin) as (n & c & h & w & -> & Hn & Hc & Hh & Hw).
  apply Hab; assumption.
Qed.

(** The L1 distance over a region, entry by entry. *)
Lemma l1_region_entries (image output region : tensor T) (N C H W : nat) :
  shape image = [N; C; H; W] ->
  shape output = [N; C; H; W] ->
  shape region = [N; 1%nat; H; W] ->
  exists w,
    l1_region image output region = Ok (mean w) /\
    shape w = [N; C; H; W] /\
    forall n c h x, (n < N)%nat -> (c < C)%nat -> (h < H)%nat -> (x < W)%nat ->
      get w [n; c; h; x]
      = smul (sabs (ssub (get image [n; c; h; x]) (get output [n; c; h; x])))
             (get region [n; 0%nat; h; x]).
Proof.
  intros Hi Ho Hr. unfold l1_region.
  destruct (binop_same_shape RuntimeError ssub image output N C H W Hi Ho)
    as (d & Ed & Sd & Gd).
  destruct (binop_image_mask RuntimeError smul (tmap sabs d) region N C H W Sd Hr)
    as (w & Ew & Sw & Gw).
  rewrite Ed. cbn [rbind]. rewrite Ew. cbn [rbind].
  exists w. split; [reflexivity |]. split; [exact Sw |].
  intros n c h x Hn Hc Hh Hx. rewrite Gw by assumption. cbn [tmap get].
  rewrite Gd by assumption. reflexivity.
Qed.

(** The distance over a region does not see the output outside of it. *)
Lemma l1_region_local (image output output' region : tensor T) (N C H W : nat) :
  shape image = [N; C; H; W] ->
  shape output = [N; C; H; W] ->
  shape output' = [N; C; H; W] ->
  shape region = [N; 1%nat; H; W] ->
  (forall n c h x, (n < N)%nat -> (c < C)%nat -> (h < H)%nat -> (x < W)%nat ->
     get region [n; 0%nat; h; x] = lit 0 \/
     get output [n; c; h; x] = get output' [n; c; h; x]) ->
  l1_region image output region = l1_region image output' region.
Proof.
  intros Hi Ho Ho' Hr Hsame.
  destruct (l1_region_entries image output region N C H W Hi Ho Hr) as (w & -> & Sw & Gw).
  destruct (l1_region_entries image output' region N C H W Hi Ho' Hr)
    as (w' & -> & Sw' & Gw').
  f_equal. apply (mean_ext w w' N C H W Sw Sw').
  intros n c h x Hn Hc Hh Hx. rewrite Gw, Gw' by assumption.
  destruct (Hsame n c h x Hn Hc Hh Hx) as [E | E]; rewrite E.
  - rewrite !smul_0_r. reflexivity.
  - reflexivity.
Qed.

End Blending.

Section Frame.

Context {T : Type} `{Sc : Scalar T} `{Nw : Networks T}.

Lemma keeps_ret {A X} (f : DeepFillV2 -> X) (a : A) : keeps f (ret a).
Proof. intros self. reflexivity. Qed.

Lemma keeps_lift {A X} (f : DeepFillV2 -> X) (r : result A) : keeps f (lift r).
Proof. intros self. reflexivity. Qed.

Lemma keeps_gets {A X} (f : DeepFillV2 -> X) (g : DeepFillV2 -> A) : keeps f (gets g).
Proof. intros self. reflexivity. Qed.

Lemma keeps_bind {A B X} (f : DeepFillV2 -> X) (c : M A) (k : A -> M B) :
  keeps f c -> (forall a, keeps f (k a)) -> keeps f (bind c k).
Proof.
  intros Hc Hk self. unfold bind.
  specialize (Hc self). destruct (c self) as [[a | e] self']; simpl in *.
  - rewrite Hk. exact Hc.
  - exact Hc.
Qed.

Lemma keeps_for_each_M {A B X} (f : DeepFillV2 -> X) (body : A -> B -> M A) (l : list B) :
  (forall acc x, keeps f (body acc x)) -> forall acc, keeps f (for_each_M l body acc).
Proof.
  intros Hbody. induction l as [| x l IH]; intros acc; simpl.
  - apply keeps_ret.
  - apply keeps_bind; [apply Hbody | exact IH].
Qed.

Lemma keeps_if {A X} (f : DeepFillV2 -> X) (b : bool) (c1 c2 : M A) :
  keeps f c1 -> keeps f c2 -> keeps f (if b then c1 else c2).
Proof. destruct b; auto. Qed.

Lemma keeps_modify {X} (f : DeepFillV2 -> X) (g : DeepFillV2 -> DeepFillV2) :
  (forall self, f (g self) = f self) -> keeps f (modify g).
Proof. intros Hg self. apply Hg. Qed.

Lemma appends_keeps {A X} (f : DeepFillV2 -> list X) (P : X -> Prop) (c : M A) :
  keeps f c -> appends f P c.
Proof.
  intros Hc self. exists []. rewrite app_nil_r. split; [apply Hc | constructor].
Qed.

Lemma appends_modify_one {X} (f : DeepFillV2 -> list X) (P : X -> Prop)
    (g : DeepFillV2 -> DeepFillV2) (x : X) :
  (forall self, f (g self) = f self ++ [x]) -> P x -> appends f P (modify g).
Proof.
  intros Hg Hx self. exists [x]. split; [apply Hg | repeat constructor; exact Hx].
Qed.

Lemma appends_bind {A B X} (f : DeepFillV2 -> list X) (P : X -> Prop)
    (c : M A) (k : A -> M B) :
  appends f P c -> (forall a, appends f P (k a)) -> appends f P (bind c k).
Proof.
  intros Hc Hk self. unfold bind.
  destruct (Hc self) as (new1 & E1 & F1).
  destruct (c self) as [[a | e] self']; simpl in *.
  - destruct (Hk a self') as (new2 & E2 & F2).
    exists (new1 ++ new2). rewrite E2, E1, app_assoc. split; [reflexivity |].
    apply Forall_app. split; assumption.
  - exists new1. split; assumption.
Qed.

Lemma appends_for_each_M {A B X} (f : DeepFillV2 -> list X) (P : X -> Prop)
    (body : A -> B -> M A) (l : list B) :
  (forall acc x, appends f P (body acc x)) -> forall acc, appends f P (for_each_M l body acc).
Proof.
  intros Hbody. induction l as [| x l IH]; intros acc; simpl.
  - apply appends_keeps, keeps_ret.
  - apply appends_bind; [apply Hbody | exact IH].
Qed.

Lemma appends_if {A X} (f : DeepFillV2 -> list X) (P : X -> Prop) (b : bool) (c1 c2 : M A) :
  appends f P c1 -> appends f P c2 -> appends f P (if b then c1 else c2).
Proof. destruct b; auto. Qed.

End Frame.

(** Decomposes a method into its steps and closes each of them. *)
Ltac frame :=
  repeat first
    [ apply keeps_ret
    | apply keeps_lift
    | apply keeps_gets
    | apply keeps_modify; intros ?; reflexivity
    | apply keeps_if
    | apply keeps_for_each_M; intros ? ?
    | match goal with
      | |- keeps _ (match ?p with pair _ _ => _ end) => destruct p
      end
    | apply keeps_bind; [ | intros ? ] ].

(** The same for a method that appends: every appended element is left
    as a goal. *)
Ltac growth :=
  repeat first
    [ apply appends_keeps; solve [frame]
    | eapply appends_modify_one; [ intros ?; reflexivity | ]
    | apply appends_if
    | apply appends_for_each_M; intros ? ?
    | match goal with
      | |- appends _ _ (match ?p with pair _ _ => _ end) => destruct p
      end
    | apply appends_bind; [ | intros ? ] ].

(** Unfolds the steps of a method down to the calls it makes. *)
Ltac run :=
  cbv beta iota delta
    [bind self_net_G self_recon_loss self_net_D set_last_batch
     set_generated_image set_generated_image_only_patch invoked log modify
     gets lift ret];
  cbn [Z.eqb Pos.eqb].

Ltac attrs :=
  cbn [fst snd hparams net_G net_D recon_loss last_batch generated_image
       generated_image_only_patch visualization_dataloader logger global_step
       invocations with_last_batch with_generated_image
       with_generated_image_only_patch with_logged with_invoked].

(** Splits a run at every call that may raise. *)
Ltac outcomes :=
  repeat (attrs;
          match goal with
          | |- context [match ?r with Ok _ => _ | Raise _ => _ end] => destruct r eqn:?
          | |- context [let (_, _) := ?p in _] => destruct p
          end);
  attrs.

Ltac stored_patch :=
  match goal with
  | H : match generated_image_only_patch ?s with Some _ => _ | None => _ end = _ |- _ =>
      destruct (generated_image_only_patch s) eqn:?;
      [ injection H as H; subst | discriminate H ]
  end.

Ltac which_call :=
  repeat match goal with
         | H : _ \/ _ |- _ => destruct H
         | H : False |- _ => destruct H
         | H : call_net_D _ = call_net_D _ |- _ => injection H as H; subst
         | H : _ = call_net_D _ |- _ => discriminate H
         end.

Section Orchestration.

Context {T : Type} `{Sc : Scalar T} `{Nw : Networks T}.

Lemma training_step_keeps_hparams (batch : Batch T) (batch_idx optimizer_idx : Z) :
  keeps hparams (training_step batch batch_idx optimizer_idx).
Proof. unfold training_step. frame. Qed.

Lemma configure_optimizers_keeps_hparams : keeps hparams configure_optimizers.
Proof. unfold configure_optimizers. frame. Qed.

Lemma on_epoch_end_keeps_hparams (yielded : list (Batch T)) :
  keeps hparams (on_epoch_end yielded).
Proof. unfold on_epoch_end, visualize_batch. frame. Qed.

Lemma perform_keeps_hparams (c : Call) (self : DeepFillV2) :
  hparams (perform c self) = hparams self.
Proof.
  destruct c; simpl.
  - apply training_step_keeps_hparams.
  - apply configure_optimizers_keeps_hparams.
  - apply on_epoch_end_keeps_hparams.
  - reflexivity.
  - reflexivity.
Qed.

(** The generator step, when the generator, the reconstruction loss, the
    blending, the concatenation and the discriminator all return. *)
Lemma generator_step_run (batch : Batch T) (batch_idx : Z) (self : DeepFillV2)
    (coarse_image refined_image completed_image x d_fake : tensor T) (recon : T) :
  G_forward (net_G self) (batch_image batch) (batch_mask batch)
    = Ok (coarse_image, refined_image) ->
  R_forward (recon_loss self) (batch_image batch) coarse_image refined_image
    (batch_mask batch) = Ok recon ->
  blend refined_image (batch_image batch) (batch_mask batch) = Ok completed_image ->
  cat [completed_image; batch_mask batch] 1 = Ok x ->
  D_forward (net_D self) x = Ok d_fake ->
  training_step batch batch_idx 0 self =
    (Ok (Some (mkStepOutput
                 (sadd (adversarial_generator_loss (gen_loss_alpha (hparams self)) d_fake)
                       recon)
                 [("gen_loss"%string,
                   adversarial_generator_loss (gen_loss_alpha (hparams self)) d_fake);
                  ("recon_loss"%string, recon)])),
     after_generator_step batch coarse_image refined_image completed_image x
       (adversarial_generator_loss (gen_loss_alpha (hparams self)) d_fake) recon self).
Proof.
  intros HG HR HB HC HD.
  unfold training_step. run. attrs.
  rewrite HG. attrs. rewrite HR.
  unfold blend in HB. rewrite HB, HC. attrs. rewrite HD.
  reflexivity.
Qed.

(** The discriminator step, when a completed image is stored and both
    concatenations and both discriminator passes return. *)
Lemma discriminator_step_run (batch : Batch T) (batch_idx : Z) (self : DeepFillV2)
    (patch x_real d_real x_fake d_fake : tensor T) :
  cat [batch_image batch; batch_mask batch] 1 = Ok x_real ->
  D_forward (net_D self) x_real = Ok d_real ->
  generated_image_only_patch self = Some patch ->
  cat [detach patch; batch_mask batch] 1 = Ok x_fake ->
  D_forward (net_D self) x_fake = Ok d_fake ->
  training_step batch batch_idx 1 self =
    (Ok (Some (mkStepOutput
                 (hinge_discriminator_loss (disc_loss_alpha (hparams self)) d_real d_fake)
                 [("d_real_loss"%string, hinge_real d_real);
                  ("d_fake_loss"%string, hinge_fake d_fake)])),
     after_discriminator_step batch x_real x_fake (hinge_real d_real) (hinge_fake d_fake)
       (hinge_discriminator_loss (disc_loss_alpha (hparams self)) d_real d_fake) self).
Proof.
  intros HC1 HD1 HP HC2 HD2.
  unfold training_step. run. attrs.
  rewrite HC1. attrs. rewrite HD1. attrs. rewrite HP, HC2. attrs. rewrite HD2.
  reflexivity.
Qed.

(** *** The visualization loop, sample by sample *)

Lemma append_rows_cons (acc : Columns) (r : Row) (rs : list Row) :
  append_rows (mkColumns (images acc ++ [row_image r]) (coarse acc ++ [row_coarse r])
                 (refined acc ++ [row_refined r]) (masked acc ++ [row_masked r])
                 (completed acc ++ [row_completed r])) rs
  = append_rows acc (r :: rs).
Proof. unfold append_rows. simpl. rewrite <- !app_assoc. reflexivity. Qed.

Lemma append_rows_nil (acc : Columns) : append_rows acc [] = acc.
Proof. destruct acc. unfold append_rows. simpl. rewrite !app_nil_r. reflexivity. Qed.

Lemma append_rows_app (acc : Columns) (rs1 rs2 : list Row) :
  append_rows (append_rows acc rs1) rs2 = append_rows acc (rs1 ++ rs2).
Proof. unfold append_rows. simpl. rewrite !map_app, <- !app_assoc. reflexivity. Qed.

(** The inner loop appends the rows of its samples, in order. *)
Lemma append_tiles_loop (image co re mk cm : tensor T) (l : list nat) (acc : Columns) :
  for_each l (append_tiles image co re mk cm) acc
  = rbind (map_result (row image co re mk cm) l) (fun rs => Ok (append_rows acc rs)).
Proof.
  revert acc. induction l as [| j l IH]; intros acc; simpl.
  - rewrite append_rows_nil. reflexivity.
  - unfold append_tiles at 1, row at 1, tile, numpy, cpu.
    destruct (getitem image j) as [a1 | e]; simpl; [| reflexivity].
    destruct (denormalize a1) as [t1 | e]; simpl; [| reflexivity].
    destruct (getitem co j) as [a2 | e]; simpl; [| reflexivity].
    destruct (denormalize a2) as [t2 | e]; simpl; [| reflexivity].
    destruct (getitem re j) as [a3 | e]; simpl; [| reflexivity].
    destruct (denormalize a3) as [t3 | e]; simpl; [| reflexivity].
    destruct (getitem mk j) as [a4 | e]; simpl; [| reflexivity].
    destruct (denormalize a4) as [t4 | e]; simpl; [| reflexivity].
    destruct (getitem cm j) as [a5 | e]; simpl; [| reflexivity].
    destruct (denormalize a5) as [t5 | e]; simpl; [| reflexivity].
    rewrite IH.
    destruct (map_result (row image co re mk cm) l) as [rs | e]; simpl; [| reflexivity].
    rewrite <- (append_rows_cons acc (mkRow t1 t2 t3 t4 t5) rs). reflexivity.
Qed.

(** The body of the outer loop runs the generator once and appends the
    rows of the batch. *)
Lemma visualize_batch_rows (acc : Columns) (batch : Batch T) (self : DeepFillV2) :
  visualize_batch acc batch self
  = (rbind (batch_rows (net_G self) batch) (fun rs => Ok (append_rows acc rs)),
     with_invoked (call_net_G (batch_image batch) (batch_mask batch)) self).
Proof.
  unfold visualize_batch, batch_rows, blend, masked_input, cuda, numpy, cpu. run. attrs.
  destruct (G_forward (net_G self) (batch_image batch) (batch_mask batch))
    as [[co re] | e]; simpl; [| reflexivity].
  destruct (tmul re (batch_mask batch)) as [a | e]; simpl; [| reflexivity].
  destruct (tmul (batch_image batch) (rsub (lit 1) (batch_mask batch)))
    as [b | e]; simpl; [| reflexivity].
  destruct (tadd a b) as [cm | e]; simpl; [| reflexivity].
  destruct (tadd b (batch_mask batch)) as [mk | e]; simpl; [| reflexivity].
  destruct (size (batch_image batch) 0) as [n | e]; simpl; [| reflexivity].
  rewrite append_tiles_loop. reflexivity.
Qed.


(** [on_epoch_end] runs the generator and nothing else. *)
Lemma on_epoch_end_invocations (yielded : list (Batch T)) :
  appends invocations (fun c => is_generator_call c = true) (on_epoch_end yielded).
Proof. unfold on_epoch_end, visualize_batch. growth. reflexivity. Qed.

(** C5. The hyperparameters are set by the constructor to the record it
    is given, and after any sequence of calls to [training_step] (with any
    optimizer index), [configure_optimizers], [on_epoch_end] and the data
    loader builders, returning or raising, the instance still holds that
    record. *)
Theorem hparams_never_mutated (args : Hparams T) (calls : list Call) :
  hparams (__init__ args) = args /\
  hparams (perform_all calls (__init__ args)) = args.
Proof.
  split; [reflexivity |].
  assert (Hall : forall self, hparams (perform_all calls self) = hparams self).
  { unfold perform_all.
    induction calls as [| c calls IH]; intros self; simpl.
    - reflexivity.
    - rewrite IH. apply perform_keeps_hparams. }
  rewrite Hall. reflexivity.
Qed.

(** C9. With an optimizer index other than 0 and 1, [training_step]
    returns [None].  It runs no forward pass and makes no logger call, and
    of the attributes of the instance it changes [last_batch] alone, which
    holds the batch afterwards. *)
Theorem training_step_other_index
    (batch : Batch T) (batch_idx optimizer_idx : Z) (self : DeepFillV2) :
  optimizer_idx <> 0%Z ->
  optimizer_idx <> 1%Z ->
  fst (training_step batch batch_idx optimizer_idx self) = Ok None /\
  last_batch (snd (training_step batch batch_idx optimizer_idx self)) = Some batch /\
  invocations (snd (training_step batch batch_idx optimizer_idx self)) = invocations self /\
  logger (snd (training_step batch batch_idx optimizer_idx self)) = logger self /\
  hparams (snd (training_step batch batch_idx optimizer_idx self)) = hparams self /\
  net_G (snd (training_step batch batch_idx optimizer_idx self)) = net_G self /\
  net_D (snd (training_step batch batch_idx optimizer_idx self)) = net_D self /\
  recon_loss (snd (training_step batch batch_idx optimizer_idx self)) = recon_loss self /\
  generated_image (snd (training_step batch batch_idx optimizer_idx self))
    = generated_image self /\
  generated_image_only_patch (snd (training_step batch batch_idx optimizer_idx self))
    = generated_image_only_patch self /\
  visualization_dataloader (snd (training_step batch batch_idx optimizer_idx self))
    = visualization_dataloader self /\
  global_step (snd (training_step batch batch_idx optimizer_idx self)) = global_step self.
Proof.
  intros H0 H1. unfold training_step.
  apply Z.eqb_neq in H0. apply Z.eqb_neq in H1.
  rewrite H0, H1. run. attrs. repeat split.
Qed.

(** C6, as the code has it.  [configure_optimizers] leaves the instance
    as it is.  What it returns is two Adam optimizers and no scheduler: the
    first over the generator's parameters with the learning rate [lr] of
    the command line, the second over the discriminator's parameters with
    four times that rate; both take the weight decay of the command line.
    It returns exactly when [0 <= lr], [0 <= 4 * lr] and
    [0 <= weight_decay] hold and both networks have parameters; otherwise
    [torch.optim.Adam] raises [ValueError]. *)
Theorem configure_optimizers_rates (self : DeepFillV2) :
  snd (configure_optimizers self) = self /\
  (forall r, fst (configure_optimizers self) = Ok r ->
     r = ([mkAdam (G_parameters (net_G self)) (lr (hparams self))
             (weight_decay (hparams self));
           mkAdam (D_parameters (net_D self)) (smul (lit 4) (lr (hparams self)))
             (weight_decay (hparams self))],
          [])) /\
  (forall e, fst (configure_optimizers self) = Raise e -> e = ValueError) /\
  ((exists r, fst (configure_optimizers self) = Ok r) <->
   sleb (lit 0) (lr (hparams self)) = true /\
   sleb (lit 0) (smul (lit 4) (lr (hparams self))) = true /\
   sleb (lit 0) (weight_decay (hparams self)) = true /\
   G_parameters (net_G self) <> [] /\
   D_parameters (net_D self) <> []).
Proof.
  unfold configure_optimizers, torch_optim_Adam. run. attrs.
  destruct (sleb (lit 0) (lr (hparams self))) eqn:E1; cbn [negb];
    destruct (sleb (lit 0) (weight_decay (hparams self))) eqn:E2; cbn [negb];
    destruct (G_parameters (net_G self)) eqn:E3;
    destruct (sleb (lit 0) (smul (lit 4) (lr (hparams self)))) eqn:E4; cbn [negb];
    destruct (D_parameters (net_D self)) eqn:E5; cbn [fst snd].
  all: split; [reflexivity |].
  all: split; [intros r Hr; first [discriminate Hr | injection Hr as <-; reflexivity] |].
  all: split; [intros e He; first [discriminate He | injection He as <-; reflexivity] |].
  all: split;
    [ intros [r Hr]; first [discriminate Hr | repeat split; (reflexivity || discriminate)]
    | intros (H1 & H2 & H3 & H4 & H5);
      first [discriminate | congruence | eexists; reflexivity] ].
Qed.


(** C3. When a completed image is stored and both passes of the
    discriminator return, the loss [training_step] returns with the
    optimizer index 1 is [disc_loss_alpha] times the sum of
    mean(relu(1 - D(image, mask))) and mean(relu(1 + D(detached completed
    image, mask))).  Either term vanishes beyond its margin: a score of at
    least 1 on the real side, of at most -1 on the fake side. *)
Theorem discriminator_step_loss {EA : @ExactArith T Sc}
    (batch : Batch T) (batch_idx : Z) (self : DeepFillV2)
    (patch x_real d_real x_fake d_fake : tensor T) :
  cat [batch_image batch; batch_mask batch] 1 = Ok x_real ->
  D_forward (net_D self) x_real = Ok d_real ->
  generated_image_only_patch self = Some patch ->
  cat [detach patch; batch_mask batch] 1 = Ok x_fake ->
  D_forward (net_D self) x_fake = Ok d_fake ->
  (exists out self',
     training_step batch batch_idx 1 self = (Ok (Some out), self') /\
     loss out =
       smul (disc_loss_alpha (hparams self))
         (sadd (mean (tmap relu (rsub (lit 1) d_real)))
               (mean (tmap relu (radd (lit 1) d_fake))))) /\
  (forall d, sleb (lit 1) d = true -> relu (ssub (lit 1) d) = lit 0) /\
  (forall d, sleb d (sneg (lit 1)) = true -> relu (sadd (lit 1) d) = lit 0).
Proof.
  intros HC1 HD1 HP HC2 HD2. repeat split.
  - eexists. eexists. split.
    + eapply discriminator_step_run; eassumption.
    + reflexivity.
  - intros d Hd. unfold relu. rewrite (sleb_sub (lit 1) d Hd). reflexivity.
  - intros d Hd. unfold relu. rewrite (sleb_add (lit 1) d Hd). reflexivity.
Qed.

(** C4. Whatever [training_step] hands to the discriminator is the
    concatenation along dimension 1 of an image with the mask of the batch:
    the completed image in the generator step, the image of the batch and
    the detached stored completed image in the discriminator step.  The
    channels after those of the image are the channels of the mask.
    [on_epoch_end] does not run the discriminator. *)
Theorem discriminator_always_sees_mask
    (batch : Batch T) (batch_idx optimizer_idx : Z) (self : DeepFillV2) :
  (exists new,
     invocations (snd (training_step batch batch_idx optimizer_idx self))
       = invocations self ++ new /\
     forall x, In (call_net_D x) new -> discriminator_input self batch optimizer_idx x) /\
  (forall x, discriminator_input self batch optimizer_idx x ->
     exists image,
       cat [image; batch_mask batch] 1 = Ok x /\
       nth 1 (shape x) 0%nat
         = (nth 1 (shape image) 0 + nth 1 (shape (batch_mask batch)) 0)%nat /\
       forall n c rest,
         get x (n :: (nth 1 (shape image) 0 + c)%nat :: rest)
           = get (batch_mask batch) (n :: c :: rest)) /\
  (forall yielded,
     appends invocations (fun c => is_generator_call c = true) (on_epoch_end yielded)).
Proof.
  split; [| split].
  - unfold training_step.
    destruct (optimizer_idx =? 0)%Z eqn:E0; [| destruct (optimizer_idx =? 1)%Z eqn:E1].
    + apply Z.eqb_eq in E0. run. outcomes.
      all: rewrite <- ?app_assoc; cbn [app];
        first [ eexists; split; [reflexivity |]
              | exists []; split; [symmetry; apply app_nil_r |] ].
      all: intros x Hin; simpl in Hin; which_call.
      all: eapply generator_fake_pass; eauto.
    + apply Z.eqb_eq in E1. run. outcomes.
      all: rewrite <- ?app_assoc; cbn [app];
        first [ eexists; split; [reflexivity |]
              | exists []; split; [symmetry; apply app_nil_r |] ].
      all: intros x Hin; simpl in Hin; which_call.
      all: try stored_patch.
      all: first [ eapply discriminator_real_pass; eauto; fail
                 | eapply discriminator_fake_pass; eauto; fail ].
    + run. attrs. exists []. split; [symmetry; apply app_nil_r |].
      intros x [].
  - intros x Hx.
    destruct Hx as [co re cm x _ _ _ Hcat | x _ Hcat | patch x _ _ Hcat].
    + exists cm. destruct (cat_pair_channels _ _ _ Hcat) as (Hs & _ & Hm). auto.
    + exists (batch_image batch).
      destruct (cat_pair_channels _ _ _ Hcat) as (Hs & _ & Hm). auto.
    + exists (detach patch).
      destruct (cat_pair_channels _ _ _ Hcat) as (Hs & _ & Hm). auto.
  - apply on_epoch_end_invocations.
Qed.

(** C10. The stored completed image is [None] after construction and is
    assigned by the generator step only.  While it is [None] the
    discriminator step raises, with [AttributeError] once its real pass
    has returned.  After a generator step that returned on a batch, the
    discriminator step on that batch hands to the discriminator, as fake
    input, the completed image of that generator step, detached, with the
    mask of the batch: a tensor with the channels of the completed image
    followed by the channels of the mask. *)
Theorem discriminator_step_needs_generator_step
    (args : Hparams T) (batch : Batch T) (batch_idx : Z) (self : DeepFillV2)
    (coarse_image refined_image completed_image x d_fake : tensor T) (recon : T) :
  G_forward (net_G self) (batch_image batch) (batch_mask batch)
    = Ok (coarse_image, refined_image) ->
  R_forward (recon_loss self) (batch_image batch) coarse_image refined_image
    (batch_mask batch) = Ok recon ->
  blend refined_image (batch_image batch) (batch_mask batch) = Ok completed_image ->
  cat [completed_image; batch_mask batch] 1 = Ok x ->
  D_forward (net_D self) x = Ok d_fake ->
  generated_image_only_patch (__init__ args) = None /\
  (forall c s, is_generator_step c = false ->
     generated_image_only_patch (perform c s) = generated_image_only_patch s) /\
  (forall b i s,
     generated_image_only_patch s = None ->
     exists e s',
       training_step b i 1 s = (Raise e, s') /\
       (forall x_real d_real,
          cat [batch_image b; batch_mask b] 1 = Ok x_real ->
          D_forward (net_D s) x_real = Ok d_real ->
          e = AttributeError)) /\
  generated_image_only_patch (snd (training_step batch batch_idx 0 self))
    = Some completed_image /\
  cat [detach completed_image; batch_mask batch] 1 = Ok x /\
  (forall i x_real d_real,
     cat [batch_image batch; batch_mask batch] 1 = Ok x_real ->
     D_forward (net_D self) x_real = Ok d_real ->
     invocations (snd (training_step batch i 1 (snd (training_step batch batch_idx 0 self))))
       = invocations (snd (training_step batch batch_idx 0 self))
           ++ [call_net_D x_real; call_net_D x]) /\
  shape x
    = set_nth 1 (nth 1 (shape completed_image) 0 + nth 1 (shape (batch_mask batch)) 0)%nat
        (shape completed_image) /\
  (forall n c rest, (c < nth 1 (shape completed_image) 0)%nat ->
     get x (n :: c :: rest) = get (detach completed_image) (n :: c :: rest)) /\
  (forall n c rest,
     get x (n :: (nth 1 (shape completed_image) 0 + c)%nat :: rest)
       = get (batch_mask batch) (n :: c :: rest)).
Proof.
  intros HG HR HB HC HD.
  rewrite (generator_step_run batch batch_idx self _ _ _ _ _ _ HG HR HB HC HD).
  cbn [snd].
  split; [reflexivity |]. split; [| split; [| split; [| split; [| split]]]].
  - intros c s Hc. destruct c as [b i o | | yielded | |]; simpl in *.
    + unfold training_step. rewrite Hc.
      apply (keeps_bind generated_image_only_patch); [frame | intros _].
      apply keeps_if; frame.
    + assert (K : keeps generated_image_only_patch configure_optimizers)
        by (unfold configure_optimizers; frame).
      apply K.
    + assert (K : keeps generated_image_only_patch (on_epoch_end yielded))
        by (unfold on_epoch_end, visualize_batch; frame).
      apply K.
    + reflexivity.
    + reflexivity.
  - intros b i s Hnone. unfold training_step. run. attrs.
    destruct (cat [batch_image b; batch_mask b] 1) as [x_real | e] eqn:Ecat.
    + destruct (D_forward (net_D s) x_real) as [d_real | e] eqn:ED.
      * rewrite Hnone. eexists. eexists. split; [reflexivity |]. reflexivity.
      * eexists. eexists. split; [reflexivity |].
        intros x1 d1 Hx1. injection Hx1 as <-. rewrite ED. discriminate.
    + eexists. eexists. split; [reflexivity |]. discriminate.
  - reflexivity.
  - exact HC.
  - intros i x_real d_real HC1 HD1.
    unfold training_step, after_generator_step. run. attrs.
    rewrite HC1. attrs. rewrite HD1. attrs.
    unfold detach in *. rewrite HC. attrs.
    destruct (D_forward (net_D self) x); attrs; rewrite <- !app_assoc; reflexivity.
  - (* the concatenation, read off [torch.cat] itself *)
    unfold cat, concatenate in HC.
    destruct ((1 <? length (shape completed_image))%nat &&
              forallb (fun t' => same_off_axis 1 (shape completed_image) (shape t'))
                [batch_mask batch]) eqn:E; [| discriminate HC].
    injection HC as <-. cbn [shape get]. unfold detach.
    split; [| split].
    + unfold axis_total. cbn [fold_right]. rewrite Nat.add_0_r. reflexivity.
    + intros n c rest Hc. cbn [cat_get nth].
      apply Nat.ltb_lt in Hc. rewrite Hc. reflexivity.
    + intros n c rest. cbn [cat_get nth].
      assert (Hge : ((nth 1 (shape completed_image) 0 + c
                      <? nth 1 (shape completed_image) 0) = false)%nat)
        by (apply Nat.ltb_ge; lia).
      rewrite Hge. unfold set_nth. cbn [firstn skipn app].
      replace (nth 1 (shape completed_image) 0 + c - nth 1 (shape completed_image) 0)%nat
        with c by lia.
      reflexivity.
Qed.

(** C1, as the code has it.  For a batch with an [N,C,H,W] image and an
    [N,1,H,W] mask, when the generator returns outputs of the shape of the
    image and the reconstruction loss returns, the generator step stores as
    completed image [refined_image * mask + image * (1 - mask)].  At a
    pixel where the refined output and the image are both finite, the
    completed image is the image if the mask is 0 there and the refined
    output if the mask is 1.  The visualization of the batch in
    [on_epoch_end] takes its completed tiles from the same tensor. *)
Theorem completed_image_blend {FA : @FiniteArith T Sc}
    (batch : Batch T) (batch_idx : Z) (self : DeepFillV2)
    (coarse_image refined_image : tensor T) (recon : T) (N C H W : nat) :
  shape (batch_image batch) = [N; C; H; W] ->
  shape (batch_mask batch) = [N; 1%nat; H; W] ->
  G_forward (net_G self) (batch_image batch) (batch_mask batch)
    = Ok (coarse_image, refined_image) ->
  shape refined_image = [N; C; H; W] ->
  R_forward (recon_loss self) (batch_image batch) coarse_image refined_image
    (batch_mask batch) = Ok recon ->
  exists completed_image,
    blend refined_image (batch_image batch) (batch_mask batch) = Ok completed_image /\
    generated_image_only_patch (snd (training_step batch batch_idx 0 self))
      = Some completed_image /\
    shape completed_image = [N; C; H; W] /\
    (forall n c h w, (n < N)%nat -> (c < C)%nat -> (h < H)%nat -> (w < W)%nat ->
       get completed_image [n; c; h; w]
       = sadd (smul (get refined_image [n; c; h; w]) (get (batch_mask batch) [n; 0%nat; h; w]))
              (smul (get (batch_image batch) [n; c; h; w])
                    (ssub (lit 1) (get (batch_mask batch) [n; 0%nat; h; w]))) /\
       (finite (get refined_image [n; c; h; w]) ->
        finite (get (batch_image batch) [n; c; h; w]) ->
        (get (batch_mask batch) [n; 0%nat; h; w] = lit 0 ->
         same (get completed_image [n; c; h; w]) (get (batch_image batch) [n; c; h; w])) /\
        (get (batch_mask batch) [n; 0%nat; h; w] = lit 1 ->
         same (get completed_image [n; c; h; w]) (get refined_image [n; c; h; w])))) /\
    (forall acc, exists masked_image,
       masked_input (batch_image batch) (batch_mask batch) = Ok masked_image /\
       fst (visualize_batch acc batch self)
       = rbind (map_result
                  (row (batch_image batch) coarse_image refined_image masked_image
                     completed_image)
                  (seq 0 N))
               (fun rs => Ok (append_rows acc rs))).
Proof.
  intros Hi Hm HG Hr HR.
  destruct (blend_entries refined_image (batch_image batch) (batch_mask batch) N C H W
              Hr Hi Hm) as (cm & Ecm & Scm & Gcm).
  exists cm. split; [exact Ecm |]. split; [| split; [exact Scm | split]].
  - unfold training_step. run. attrs. rewrite HG. attrs. rewrite HR.
    unfold blend in Ecm. rewrite Ecm.
    destruct (cat [cm; batch_mask batch] 1) as [x | e]; attrs; [| reflexivity].
    destruct (D_forward (net_D self) x); attrs; reflexivity.
  - intros n c h w Hn Hc Hh Hw. split; [apply Gcm; assumption |].
    intros Fr Fi. rewrite (Gcm n c h w Hn Hc Hh Hw). split; intros ->.
    + rewrite one_minus_zero, smul_one.
      apply sadd_zero_l; [apply smul_zero; exact Fr | exact Fi].
    + rewrite one_minus_one, smul_one.
      apply sadd_zero_r; [apply smul_zero; exact Fi | exact Fr].
  - intros acc.
    destruct (masked_input_entries (batch_image batch) (batch_mask batch) N C H W Hi Hm)
      as (mk & Emk & _ & _).
    exists mk. split; [exact Emk |].
    rewrite visualize_batch_rows. cbn [fst]. unfold batch_rows.
    rewrite HG. cbn [rbind fst snd]. rewrite Ecm. cbn [rbind]. rewrite Emk. cbn [rbind].
    unfold size. rewrite Hi. cbn [nth_error rbind]. reflexivity.
Qed.

End Orchestration.

Section Visualization.

Context {T : Type} `{Sc : Scalar T} `{Nw : Networks T}.

(** A tile, entry by entry: channel [c] of the pixel is scaled by the
    [c]-th deviation, shifted by the [c]-th mean, scaled by 255 and cast. *)
Lemma denormalize_entries (a : tensor T) (H W : nat) :
  shape a = [3%nat; H; W] ->
  exists t,
    denormalize a = Ok t /\
    shape t = [H; W; 3%nat] /\
    forall h w c, (h < H)%nat -> (w < W)%nat -> (c < 3)%nat ->
      get t [h; w; c]
      = astype_uint8
          (smul (sadd (smul (get a [c; h; w])
                            (nth c [lit 0.229; lit 0.224; lit 0.225] (lit 0)))
                      (nth c [lit 0.485; lit 0.456; lit 0.406] (lit 0)))
                (lit 255)).
Proof.
  intros Ha. unfold denormalize, transpose, binop, broadcast_shapes. rewrite Ha.
  cbn [length is_permutation Nat.eqb andb forallb existsb seq orb rbind map nth shape
       of_tuple rev app broadcast_rev broadcast_dim option_map].
  eexists. split; [reflexivity |]. split; [reflexivity |].
  intros h w c Hh Hw Hc.
  cbn [get tmap mul_scalar shape]. unfold bidx.
  cbn [rev app bidx_rev Nat.eqb map seq nth position length hd of_tuple get].
  rewrite !(clip_in_range H h Hh), !(clip_in_range W w Hw).
  reflexivity.
Qed.

Lemma tile_entries (x : tensor T) (N H W j : nat) :
  shape x = [N; 3%nat; H; W] -> (j < N)%nat ->
  exists t,
    tile x j = Ok t /\
    shape t = [H; W; 3%nat] /\
    forall h w c, (h < H)%nat -> (w < W)%nat -> (c < 3)%nat ->
      get t [h; w; c]
      = astype_uint8
          (smul (sadd (smul (get x [j; c; h; w])
                            (nth c [lit 0.229; lit 0.224; lit 0.225] (lit 0)))
                      (nth c [lit 0.485; lit 0.456; lit 0.406] (lit 0)))
                (lit 255)).
Proof.
  intros Hx Hj. unfold tile.
  rewrite (getitem_in_range x N [3%nat; H; W] j Hx Hj). cbn [rbind].
  destruct (denormalize_entries
              (mkTensor [3%nat; H; W] (fun i => get x (j :: i))) H W eq_refl)
    as (t & Et & St & Gt).
  exists t. split; [exact Et |]. split; [exact St |]. exact Gt.
Qed.

Lemma row_shaped (image co re mk cm : tensor T) (N H W j : nat) :
  shape image = [N; 3%nat; H; W] ->
  shape co = [N; 3%nat; H; W] ->
  shape re = [N; 3%nat; H; W] ->
  shape mk = [N; 3%nat; H; W] ->
  shape cm = [N; 3%nat; H; W] ->
  (j < N)%nat ->
  exists r, row image co re mk cm j = Ok r /\ tiles_shaped H W r.
Proof.
  intros Hi Hco Hre Hmk Hcm Hj. unfold row.
  destruct (tile_entries image N H W j Hi Hj) as (t1 & -> & S1 & _).
  destruct (tile_entries co N H W j Hco Hj) as (t2 & -> & S2 & _).
  destruct (tile_entries re N H W j Hre Hj) as (t3 & -> & S3 & _).
  destruct (tile_entries mk N H W j Hmk Hj) as (t4 & -> & S4 & _).
  destruct (tile_entries cm N H W j Hcm Hj) as (t5 & -> & S5 & _).
  cbn [rbind]. eexists. split; [reflexivity |].
  unfold tiles_shaped. cbn [row_image row_coarse row_refined row_masked row_completed].
  auto.
Qed.

Lemma batch_rows_shaped (g : Gnet) (H W : nat) (batch : Batch T) :
  visualizable g H W batch ->
  exists rs, batch_rows g batch = Ok rs /\ (rs <> [] /\ Forall (tiles_shaped H W) rs).
Proof.
  intros (N & co & re & HN & Hi & Hm & HG & Hco & Hre). unfold batch_rows.
  rewrite HG. cbn [rbind fst snd].
  destruct (blend_entries re (batch_image batch) (batch_mask batch) N 3 H W Hre Hi Hm)
    as (cm & -> & Scm & _).
  destruct (masked_input_entries (batch_image batch) (batch_mask batch) N 3 H W Hi Hm)
    as (mk & -> & Smk & _).
  cbn [rbind]. unfold size. rewrite Hi. cbn [nth_error rbind].
  destruct (map_result_all (row (batch_image batch) co re mk cm) (tiles_shaped H W)
              (seq 0 N)) as (rs & Ers & Lrs & Prs).
  { intros j Hj. apply in_seq in Hj.
    apply (row_shaped _ _ _ _ _ N H W j); auto; lia. }
  exists rs. split; [exact Ers |]. split; [| exact Prs].
  intros ->. rewrite length_seq in Lrs. simpl in Lrs. lia.
Qed.

Lemma all_rows_shaped (g : Gnet) (H W : nat) (yielded : list (Batch T)) :
  yielded <> [] ->
  Forall (visualizable g H W) yielded ->
  exists rows, all_rows g yielded = Ok rows /\ rows <> [] /\ Forall (tiles_shaped H W) rows.
Proof.
  intros Hne Hall. unfold all_rows.
  destruct (map_result_all (batch_rows g)
              (fun rs => rs <> [] /\ Forall (tiles_shaped H W) rs) yielded)
    as (rss & -> & Lrss & Prss).
  { intros b Hb. rewrite Forall_forall in Hall. apply batch_rows_shaped, Hall, Hb. }
  cbn [rbind]. exists (concat rss). split; [reflexivity |]. split.
  - destruct yielded as [| b yielded]; [contradiction |].
    destruct rss as [| rs rss]; [discriminate Lrss |].
    destruct (Forall_inv Prss) as [Hrs _].
    destruct rs as [| r rs]; [contradiction |]. discriminate.
  - clear Lrss. induction Prss as [| rs rss [_ Hrs] _ IH]; simpl.
    + constructor.
    + apply Forall_app. split; assumption.
Qed.

(** The grid of rows of [H] by [W] tiles: sample [s] fills the pixel rows
    from [s * H]; the masked inputs fill the pixel columns from 0, the
    coarse outputs from [W], the refined outputs from [2 * W], the
    completed images from [3 * W] and the images from [4 * W]. *)
Lemma grid_of_rows_entries (rows : list Row) (H W : nat) :
  rows <> [] ->
  Forall (tiles_shaped H W) rows ->
  exists grid,
    grid_of_rows rows = Ok grid /\
    shape grid = [(length rows * H)%nat; (5 * W)%nat; 3%nat] /\
    forall s h w c dflt, (s < length rows)%nat -> (h < H)%nat -> (w < W)%nat ->
      get grid [(s * H + h)%nat; (0 * W + w)%nat; c]
        = get (row_masked (nth s rows dflt)) [h; w; c] /\
      get grid [(s * H + h)%nat; (1 * W + w)%nat; c]
        = get (row_coarse (nth s rows dflt)) [h; w; c] /\
      get grid [(s * H + h)%nat; (2 * W + w)%nat; c]
        = get (row_refined (nth s rows dflt)) [h; w; c] /\
      get grid [(s * H + h)%nat; (3 * W + w)%nat; c]
        = get (row_completed (nth s rows dflt)) [h; w; c] /\
      get grid [(s * H + h)%nat; (4 * W + w)%nat; c]
        = get (row_image (nth s rows dflt)) [h; w; c].
Proof.
  intros Hne Hall. unfold grid_of_rows.
  assert (Hcol : forall (f : Row -> tensor Z),
            (forall r, tiles_shaped H W r -> shape (f r) = [H; W; 3%nat]) ->
            exists v,
              vstack (map f rows) = Ok v /\
              shape v = [(length rows * H)%nat; W; 3%nat] /\
              forall s h w c dflt, (s < length rows)%nat -> (h < H)%nat ->
                get v [(s * H + h)%nat; w; c] = get (f (nth s rows dflt)) [h; w; c]).
  { intros f Hf.
    destruct (vstack_tiles (map f rows) H W 3) as (v & Ev & Sv & Gv).
    - destruct rows; [contradiction | discriminate].
    - apply Forall_map. eapply Forall_impl; [| exact Hall]. exact Hf.
    - rewrite length_map in *. exists v. split; [exact Ev |]. split; [exact Sv |].
      intros s h w c dflt Hs Hh. rewrite (Gv s h w c (f dflt)) by assumption.
      rewrite map_nth. reflexivity. }
  destruct (Hcol row_masked) as (v0 & -> & S0 & G0); [intros r Hr; apply Hr |].
  destruct (Hcol row_coarse) as (v1 & -> & S1 & G1); [intros r Hr; apply Hr |].
  destruct (Hcol row_refined) as (v2 & -> & S2 & G2); [intros r Hr; apply Hr |].
  destruct (Hcol row_completed) as (v3 & -> & S3 & G3); [intros r Hr; apply Hr |].
  destruct (Hcol row_image) as (v4 & -> & S4 & G4); [intros r Hr; apply Hr |].
  cbn [rbind].
  destruct (hstack_columns v0 v1 v2 v3 v4 (length rows * H) W 3) as (g & Eg & Sg & Gg).
  { repeat constructor; assumption. }
  exists g. split; [exact Eg |]. split; [exact Sg |].
  intros s h w c dflt Hs Hh Hw.
  rewrite (Gg _ w c 0%nat v0), (Gg _ w c 1%nat v0), (Gg _ w c 2%nat v0),
    (Gg _ w c 3%nat v0), (Gg _ w c 4%nat v0) by (assumption || lia).
  cbn [nth].
  rewrite (G0 s h w c dflt), (G1 s h w c dflt), (G2 s h w c dflt),
    (G3 s h w c dflt), (G4 s h w c dflt) by assumption.
  repeat split; reflexivity.
Qed.

(** The outer loop returns the rows of all batches, and leaves the logger
    and the step counter as they are. *)
Lemma visualization_loop (yielded : list (Batch T)) :
  forall (acc : Columns) (self : DeepFillV2),
    fst (for_each_M yielded visualize_batch acc self)
    = rbind (map_result (batch_rows (net_G self)) yielded)
            (fun rss => Ok (append_rows acc (concat rss))).
Proof.
  induction yielded as [| b yielded IH]; intros acc self; simpl.
  - rewrite append_rows_nil. reflexivity.
  - unfold bind. rewrite visualize_batch_rows.
    destruct (batch_rows (net_G self) b) as [rs | e]; cbn [rbind]; [| reflexivity].
    rewrite IH. cbn [net_G with_invoked].
    destruct (map_result (batch_rows (net_G self)) yielded) as [rss | e];
      cbn [rbind concat]; [| reflexivity].
    rewrite append_rows_app. reflexivity.
Qed.

(** [on_epoch_end] logs the visualization once when there is one, and
    raises what its computation raises, logging nothing, otherwise. *)
Lemma on_epoch_end_visualization (yielded : list (Batch T)) (self : DeepFillV2) :
  match visualization (net_G self) yielded with
  | Ok grid =>
      fst (on_epoch_end yielded self) = Ok tt /\
      logger (snd (on_epoch_end yielded self))
        = logger self ++ [log_image T (global_step self) grid]
  | Raise e =>
      fst (on_epoch_end yielded self) = Raise e /\
      logger (snd (on_epoch_end yielded self)) = logger self
  end.
Proof.
  assert (Kl : keeps logger (for_each_M yielded visualize_batch (mkColumns [] [] [] [] [])))
    by (unfold visualize_batch; frame).
  assert (Kg : keeps global_step
                 (for_each_M yielded visualize_batch (mkColumns [] [] [] [] [])))
    by (unfold visualize_batch; frame).
  specialize (Kl self). specialize (Kg self).
  pose proof (visualization_loop yielded (mkColumns [] [] [] [] []) self) as Hloop.
  unfold on_epoch_end, visualization, all_rows, bind.
  destruct (for_each_M yielded visualize_batch (mkColumns [] [] [] [] []) self)
    as [r self']. cbn [fst snd] in *. subst r.
  destruct (map_result (batch_rows (net_G self)) yielded) as [rss | e]; cbn [rbind].
  - unfold grid_of_rows, append_rows. cbn [images coarse refined masked completed app].
    unfold lift, gets, log, modify.
    destruct (vstack (map row_masked (concat rss))) as [c0 | e]; cbn [rbind]; [| auto].
    destruct (vstack (map row_coarse (concat rss))) as [c1 | e]; cbn [rbind]; [| auto].
    destruct (vstack (map row_refined (concat rss))) as [c2 | e]; cbn [rbind]; [| auto].
    destruct (vstack (map row_completed (concat rss))) as [c3 | e]; cbn [rbind]; [| auto].
    destruct (vstack (map row_image (concat rss))) as [c4 | e]; cbn [rbind]; [| auto].
    destruct (hstack [c0; c1; c2; c3; c4]) as [g | e]; cbn [fst snd]; [| auto].
    split; [reflexivity |]. cbn [logger with_logged]. rewrite Kl, Kg. reflexivity.
  - auto.
Qed.

Lemma batch_rows_inv (g : Gnet) (batch : Batch T) (rs : list Row) :
  batch_rows g batch = Ok rs -> rows_of g batch rs.
Proof.
  unfold batch_rows, rows_of. intros Hrs.
  destruct (G_forward g (batch_image batch) (batch_mask batch)) as [[co re] | e] eqn:EG;
    [| discriminate Hrs].
  cbn [rbind fst snd] in Hrs.
  destruct (blend re (batch_image batch) (batch_mask batch)) as [cm | e] eqn:Ecm;
    [| discriminate Hrs].
  cbn [rbind] in Hrs.
  destruct (masked_input (batch_image batch) (batch_mask batch)) as [mk | e] eqn:Emk;
    [| discriminate Hrs].
  cbn [rbind] in Hrs.
  destruct (size (batch_image batch) 0) as [n | e] eqn:En; [| discriminate Hrs].
  cbn [rbind] in Hrs.
  exists co, re, cm, mk, n. repeat (split; [assumption || reflexivity |]).
  apply map_result_inv in Hrs.
  eapply Forall2_impl; [| exact Hrs]. intros j r Hr. cbn beta in Hr.
  unfold row in Hr.
  destruct (tile (batch_image batch) j) as [t1 | e]; [| discriminate Hr].
  destruct (tile co j) as [t2 | e]; [| discriminate Hr].
  destruct (tile re j) as [t3 | e]; [| discriminate Hr].
  destruct (tile mk j) as [t4 | e]; [| discriminate Hr].
  destruct (tile cm j) as [t5 | e]; [| discriminate Hr].
  cbn [rbind] in Hr. injection Hr as <-.
  cbn [row_image row_coarse row_refined row_masked row_completed]. auto.
Qed.


End Visualization.

Section ReconstructionWeights.

Context {T : Type} `{Sc : Scalar T} {EA : @ExactArith T Sc} (Nw : Networks T).

(** C7. The constructor builds the reconstruction loss from the four
    weights [l1_c_h], [l1_c_nh], [l1_r_h] and [l1_r_nh] of the command
    line, and the generator step applies it to the image, the coarse
    output, the refined output and the mask.  With the loss read as the
    spec describes it, on tensors of one [N,C,H,W] shape and an [N,1,H,W]
    mask of zeros and ones its value is the sum of four L1 distances, each
    under its own weight: coarse inside the mask, coarse outside, refined
    inside, refined outside.  A distance inside the mask does not change
    with the output outside of it, and conversely. *)
Theorem reconstruction_loss_weights
    (args : Hparams T) (image coarse_image refined_image mask : tensor T) (N C H W : nat) :
  shape image = [N; C; H; W] ->
  shape coarse_image = [N; C; H; W] ->
  shape refined_image = [N; C; H; W] ->
  shape mask = [N; 1%nat; H; W] ->
  (forall n h w, (n < N)%nat -> (h < H)%nat -> (w < W)%nat ->
     get mask [n; 0%nat; h; w] = lit 0 \/ get mask [n; 0%nat; h; w] = lit 1) ->
  @recon_loss T (with_reconstruction_loss Nw) (__init__ args)
    = mkReconLoss (l1_c_h args) (l1_c_nh args) (l1_r_h args) (l1_r_nh args) /\
  (forall (self : @DeepFillV2 T (with_reconstruction_loss Nw)) batch batch_idx co re,
     G_forward (net_G self) (batch_image batch) (batch_mask batch) = Ok (co, re) ->
     In (call_recon_loss (batch_image batch) co re (batch_mask batch))
        (invocations (snd (training_step batch batch_idx 0 self)))) /\
  (exists c_h c_nh r_h r_nh,
     l1_region image coarse_image mask = Ok c_h /\
     l1_region image coarse_image (rsub (lit 1) mask) = Ok c_nh /\
     l1_region image refined_image mask = Ok r_h /\
     l1_region image refined_image (rsub (lit 1) mask) = Ok r_nh /\
     @R_forward T (with_reconstruction_loss Nw)
       (@recon_loss T (with_reconstruction_loss Nw) (__init__ args))
       image coarse_image refined_image mask
     = Ok (sadd (sadd (sadd (smul (l1_c_h args) c_h) (smul (l1_c_nh args) c_nh))
                      (smul (l1_r_h args) r_h))
                (smul (l1_r_nh args) r_nh))) /\
  (forall output output',
     shape output = [N; C; H; W] -> shape output' = [N; C; H; W] ->
     (forall n c h w, (n < N)%nat -> (c < C)%nat -> (h < H)%nat -> (w < W)%nat ->
        get mask [n; 0%nat; h; w] = lit 1 ->
        get output [n; c; h; w] = get output' [n; c; h; w]) ->
     l1_region image output mask = l1_region image output' mask) /\
  (forall output output',
     shape output = [N; C; H; W] -> shape output' = [N; C; H; W] ->
     (forall n c h w, (n < N)%nat -> (c < C)%nat -> (h < H)%nat -> (w < W)%nat ->
        get mask [n; 0%nat; h; w] = lit 0 ->
        get output [n; c; h; w] = get output' [n; c; h; w]) ->
     l1_region image output (rsub (lit 1) mask)
       = l1_region image output' (rsub (lit 1) mask)).
Proof.
  intros Hi Hc Hr Hm Hbin.
  assert (Hm' : shape (rsub (lit 1) mask) = [N; 1%nat; H; W]) by exact Hm.
  split; [reflexivity |]. split; [| split; [| split]].
  - intros self batch batch_idx co re HG.
    unfold training_step. run. attrs. rewrite HG. attrs.
    assert (Hin : In (call_recon_loss (batch_image batch) co re (batch_mask batch))
                    ((invocations self
                        ++ [call_net_G (batch_image batch) (batch_mask batch)])
                       ++ [call_recon_loss (batch_image batch) co re (batch_mask batch)]))
      by (apply in_or_app; right; left; reflexivity).
    outcomes; first [ exact Hin | apply in_or_app; left; exact Hin ].
  - destruct (l1_region_entries image coarse_image mask N C H W Hi Hc Hm) as (w1 & E1 & _).
    destruct (l1_region_entries image coarse_image (rsub (lit 1) mask) N C H W Hi Hc Hm')
      as (w2 & E2 & _).
    destruct (l1_region_entries image refined_image mask N C H W Hi Hr Hm) as (w3 & E3 & _).
    destruct (l1_region_entries image refined_image (rsub (lit 1) mask) N C H W Hi Hr Hm')
      as (w4 & E4 & _).
    exists (mean w1), (mean w2), (mean w3), (mean w4).
    repeat (split; [assumption |]).
    cbn [R_forward with_reconstruction_loss recon_loss __init__ ReconstructionLoss].
    unfold ReconLoss_forward. rewrite E1, E2, E3, E4. reflexivity.
  - intros output output' Ho Ho' Hsame.
    apply (l1_region_local image output output' mask N C H W Hi Ho Ho' Hm).
    intros n c h w Hn Hc' Hh Hw.
    destruct (Hbin n h w Hn Hh Hw) as [E | E]; [left; exact E | right; auto].
  - intros output output' Ho Ho' Hsame.
    apply (l1_region_local image output output' (rsub (lit 1) mask) N C H W Hi Ho Ho' Hm').
    intros n c h w Hn Hc' Hh Hw. cbn [rsub tmap get].
    destruct (Hbin n h w Hn Hh Hw) as [E | E].
    + right; auto.
    + left. rewrite E. apply ssub_1_1.
Qed.

End ReconstructionWeights.

(** Exact rationals satisfy the identities of [ExactArith]. *)
Lemma Qc_leb_sub (a b : Qc) :
  Qc_leb a b = true -> Qc_leb (Qcminus a b) (Q2Qc 0) = true.
Proof.
  intros H. unfold Qc_leb in *. apply Qle_bool_iff in H. apply Qle_bool_iff.
  unfold Qcminus, Qcplus, Qcopp. cbn [this Q2Qc] in *.
  rewrite !Qred_correct in *. lra.
Qed.

Lemma Qc_leb_add (a b : Qc) :
  Qc_leb b (Qcopp a) = true -> Qc_leb (Qcplus a b) (Q2Qc 0) = true.
Proof.
  intros H. unfold Qc_leb in *. apply Qle_bool_iff in H. apply Qle_bool_iff.
  unfold Qcminus, Qcplus, Qcopp in *. cbn [this Q2Qc] in *.
  rewrite !Qred_correct in *. lra.
Qed.

#[export] Instance ExactArith_Qc : @ExactArith Qc Scalar_Qc.
Proof.
  constructor.
  - exact Qcplus_0_l.
  - exact Qcplus_0_r.
  - exact Qcmult_1_r.
  - exact Qcmult_0_r.
  - apply Qc_is_canon. reflexivity.
  - apply Qc_is_canon. reflexivity.
  - exact Qc_leb_sub.
  - exact Qc_leb_add.
Qed.

(** Every rational is finite, and exact rationals satisfy the identities
    of [FiniteArith] with equality for [same]. *)
Lemma Qc_add_zero_l (z x : Qc) : z = Q2Qc 0 -> True -> Qcplus z x = x.
Proof. intros -> _. apply Qcplus_0_l. Qed.

Lemma Qc_add_zero_r (z x : Qc) : z = Q2Qc 0 -> True -> Qcplus x z = x.
Proof. intros -> _. apply Qcplus_0_r. Qed.

Lemma Qc_one_minus_zero : Qcminus (Q2Qc 1) (Q2Qc 0) = Q2Qc 1.
Proof. apply Qc_is_canon. reflexivity. Qed.

Lemma Qc_one_minus_one : Qcminus (Q2Qc 1) (Q2Qc 1) = Q2Qc 0.
Proof. apply Qc_is_canon. reflexivity. Qed.

#[export] Instance FiniteArith_Qc : @FiniteArith Qc Scalar_Qc := {|
  finite := fun _ => True;
  same := @eq Qc;
  finite_0 := I;
  finite_1 := I;
  same_refl := fun x _ => eq_refl;
  smul_one := Qcmult_1_r;
  smul_zero := fun x _ => Qcmult_0_r x;
  sadd_zero_l := Qc_add_zero_l;
  sadd_zero_r := Qc_add_zero_r;
  one_minus_zero := Qc_one_minus_zero;
  one_minus_one := Qc_one_minus_one
|}.

(** Binary64 floats satisfy the identities of [FiniteArith], with
    [is_finite] for [finite] and the comparison [eqb] for [same]. *)
Module FloatLaws.

Import PrimFloat FloatOps FloatAxioms SpecFloat.

Lemma shr_52 (m : positive) :
  iter_pos shr_1 52
    {| shr_m := Z.pos (4503599627370496 * m); shr_r := false; shr_s := false |}
  = {| shr_m := Z.pos m; shr_r := false; shr_s := false |}.
Proof. reflexivity. Qed.

Lemma digits_52 (m : positive) :
  Z.pos (digits2_pos (4503599627370496 * m)) = (Z.pos (digits2_pos m) + 52)%Z.
Proof. cbn [Pos.mul digits2_pos]. lia. Qed.

(** The product with 1 is exact: the mantissa is shifted by 52 bits and
    back. *)
Lemma mul_one (x : float) : mul x one = x.
Proof.
  apply Prim2SF_inj. rewrite mul_spec.
  pose proof (Prim2SF_valid x) as V.
  replace (Prim2SF one) with (S754_finite false 4503599627370496 (-52)) by reflexivity.
  destruct (Prim2SF x) as [s | s | | s m e].
  1-2: destruct s; reflexivity.
  1: reflexivity.
  unfold SF64mul, SFmul. rewrite xorb_false_r.
  unfold FloatAxioms.valid_binary, valid_binary, bounded, canonical_mantissa in V.
  apply andb_prop in V. destruct V as [Hc He]. apply Z.eqb_eq in Hc.
  unfold binary_round_aux, shr_fexp, Zdigits2.
  rewrite (Pos.mul_comm m). rewrite digits_52.
  replace (Z.pos (digits2_pos m) + 52 + (e + -52))%Z with (Z.pos (digits2_pos m) + e)%Z
    by lia.
  rewrite Hc.
  replace (e - (e + -52))%Z with 52%Z by lia.
  unfold shr at 1. cbn [shr_record_of_loc]. rewrite shr_52.
  cbn [shr_m loc_of_shr_record round_nearest_even Zdigits2].
  replace (e + -52 + 52)%Z with e by lia.
  rewrite Hc, Z.sub_diag. cbn [shr shr_record_of_loc shr_m].
  rewrite He. reflexivity.
Qed.

Lemma finite_cases (x : float) :
  is_finite x = true ->
  (exists s, Prim2SF x = S754_zero s) \/ (exists s m e, Prim2SF x = S754_finite s m e).
Proof.
  unfold is_finite, is_nan, is_infinity. rewrite !eqb_spec, abs_spec.
  destruct (Prim2SF x) as [s | s | | s m e]; intros Hf.
  - left. exists s. reflexivity.
  - destruct s; vm_compute in Hf; discriminate Hf.
  - vm_compute in Hf. discriminate Hf.
  - right. exists s, m, e. reflexivity.
Qed.

Lemma zero_cases (z : float) :
  eqb z zero = true -> exists s, Prim2SF z = S754_zero s.
Proof.
  rewrite eqb_spec.
  destruct (Prim2SF z) as [s | s | | s m e]; intros Hz.
  - exists s. reflexivity.
  - destruct s; discriminate Hz.
  - discriminate Hz.
  - destruct s; discriminate Hz.
Qed.

Lemma SFeqb_finite_refl (s : bool) (m : positive) (e : Z) :
  SFeqb (S754_finite s m e) (S754_finite s m e) = true.
Proof.
  unfold SFeqb, SFcompare. rewrite Z.compare_refl.
  change (PosDef.Pos.compare_cont Eq m m) with (Pos.compare m m).
  rewrite Pos.compare_refl. destruct s; reflexivity.
Qed.

Lemma eqb_refl_finite (x : float) : is_finite x = true -> eqb x x = true.
Proof.
  intros Hx. rewrite eqb_spec.
  destruct (finite_cases x Hx) as [[s ->] | (s & m & e & ->)].
  - reflexivity.
  - apply SFeqb_finite_refl.
Qed.

(** The product of a finite float with 0 is a zero; that of an infinity
    is NaN. *)
Lemma mul_zero (x : float) : is_finite x = true -> eqb (mul x zero) zero = true.
Proof.
  intros Hx. rewrite eqb_spec, mul_spec.
  destruct (finite_cases x Hx) as [[s ->] | (s & m & e & ->)]; reflexivity.
Qed.

Lemma add_zero_l (z x : float) :
  eqb z zero = true -> is_finite x = true -> eqb (add z x) x = true.
Proof.
  intros Hz Hx. rewrite eqb_spec, add_spec.
  destruct (zero_cases z Hz) as [sz ->].
  destruct (finite_cases x Hx) as [[s ->] | (s & m & e & ->)].
  - destruct sz, s; reflexivity.
  - apply SFeqb_finite_refl.
Qed.

Lemma add_zero_r (z x : float) :
  eqb z zero = true -> is_finite x = true -> eqb (add x z) x = true.
Proof.
  intros Hz Hx. rewrite eqb_spec, add_spec.
  destruct (zero_cases z Hz) as [sz ->].
  destruct (finite_cases x Hx) as [[s ->] | (s & m & e & ->)].
  - destruct sz, s; reflexivity.
  - apply SFeqb_finite_refl.
Qed.

#[export] Instance FiniteArith_float : @FiniteArith float Scalar_float := {|
  finite := fun x => is_finite x = true;
  same := fun x y => eqb x y = true;
  finite_0 := eq_refl;
  finite_1 := eq_refl;
  same_refl := eqb_refl_finite;
  smul_one := mul_one;
  smul_zero := mul_zero;
  sadd_zero_l := add_zero_l;
  sadd_zero_r := add_zero_r;
  one_minus_zero := eq_refl;
  one_minus_one := eq_refl
|}.

End FloatLaws.

Import FloatLaws.


(** C3 on [batch0], after the generator step: the discriminator step
    returns the loss 11/4. *)
Lemma discriminator_step_loss_witness :
  exists out self',
    training_step batch0 0 1 self1 = (Ok (Some out), self') /\
    loss out = Q2Qc (11 # 4).
Proof.
  destruct (discriminator_step_loss batch0 0 self1 completed0 real0 real0 fake0 fake0
              eq_refl eq_refl eq_refl eq_refl eq_refl)
    as [(out & self' & Hrun & Hloss) _].
  exists out, self'. split; [exact Hrun |].
  rewrite Hloss. apply Qc_is_canon. vm_compute. reflexivity.
Defined.

(** C10 on [batch0]: on the fresh instance the discriminator step raises
    [AttributeError]; after the generator step its second pass is on a
    tensor of two channels: the completed pixels 1/2 and 13/4, then the
    mask 0 and 1. *)
Lemma discriminator_step_needs_generator_step_witness :
  fst (training_step batch0 0 1 self0) = Raise AttributeError /\
  exists x_fake,
    invocations (snd (training_step batch0 0 1 self1))
      = invocations self1 ++ [call_net_D real0; call_net_D x_fake] /\
    shape x_fake = [1; 2; 1; 2]%nat /\
    map (fun q : Qc => this q) (elements x_fake) = [1 # 2; 13 # 4; 0; 1]%Q.
Proof.
  destruct (discriminator_step_needs_generator_step args0 batch0 0 self0
              image0 refined0 completed0 fake0 fake0 recon0
              eq_refl eq_refl eq_refl eq_refl eq_refl)
    as (Hinit & _ & Hraise & _ & _ & Hfake & Hshape & _ & _).
  split.
  - destruct (Hraise batch0 0%Z self0 Hinit) as (e & s' & Hrun & He).
    rewrite Hrun. cbn [fst]. f_equal. apply (He real0 real0); reflexivity.
  - exists fake0. split; [apply (Hfake 0%Z real0 real0); reflexivity |].
    split; [exact Hshape | vm_compute; reflexivity].
Defined.

(** C1 in floats, on the pixels 0.5 and 0.25 with the second one masked:
    the refined output is 2 and 4, both finite; the first completed pixel
    is the image's 0.5, the second the refined output 4. *)
Lemma completed_image_blend_witness :
  exists completed_image,
    generated_image_only_patch (snd (training_step batch_finite 0 0 self_float))
      = Some completed_image /\
    PrimFloat.eqb (get completed_image [0; 0; 0; 0]%nat) (of_Q 0.5) = true /\
    PrimFloat.eqb (get completed_image [0; 0; 0; 1]%nat) (of_Q 4) = true.
Proof.
  destruct (completed_image_blend batch_finite 0 self_float (batch_image batch_finite)
              refined_finite recon_finite 1 1 1 2 eq_refl eq_refl eq_refl eq_refl eq_refl)
    as (cm & _ & Hpatch & _ & Hpix & _).
  exists cm. split; [exact Hpatch |]. split.
  - destruct (Hpix 0 0 0 0 ltac:(lia) ltac:(lia) ltac:(lia) ltac:(lia))%nat as [_ Hsame].
    exact (proj1 (Hsame eq_refl eq_refl) eq_refl).
  - destruct (Hpix 0 0 0 1 ltac:(lia) ltac:(lia) ltac:(lia) ltac:(lia))%nat as [_ Hsame].
    exact (proj2 (Hsame eq_refl eq_refl) eq_refl).
Defined.

(** C1 without the finiteness: on the pixels 0 and 0.25 the refined
    output is an infinity at the first pixel, where the mask is 0; the
    completed image is NaN there, not the image's 0. *)
Lemma completed_image_blend_counterexample :
  get (batch_mask batch_infinite) [0; 0; 0; 0]%nat = lit 0 /\
  G_forward (net_G self_float) (batch_image batch_infinite) (batch_mask batch_infinite)
    = Ok (batch_image batch_infinite, refined_infinite) /\
  get refined_infinite [0; 0; 0; 0]%nat = PrimFloat.infinity /\
  generated_image_only_patch (snd (training_step batch_infinite 0 0 self_float))
    = Some completed_infinite /\
  PrimFloat.is_nan (get completed_infinite [0; 0; 0; 0]%nat) = true /\
  PrimFloat.eqb (get completed_infinite [0; 0; 0; 0]%nat)
    (get (batch_image batch_infinite) [0; 0; 0; 0]%nat) = false.
Proof.
  split; [vm_compute; reflexivity |]. split; [reflexivity |].
  split; [vm_compute; reflexivity |]. split; [reflexivity |].
  split; vm_compute; reflexivity.
Qed.

(** C7 on [batch0], with the image itself as coarse output: the loss of
    the fresh instance is the weighted sum of the four distances. *)
Lemma reconstruction_loss_weights_witness :
  exists c_h c_nh r_h r_nh,
    l1_region image0 image0 mask0 = Ok c_h /\
    l1_region image0 image0 (rsub (lit 1) mask0) = Ok c_nh /\
    l1_region image0 refined0 mask0 = Ok r_h /\
    l1_region image0 refined0 (rsub (lit 1) mask0) = Ok r_nh /\
    ReconLoss_forward (recon_loss self0) image0 image0 refined0 mask0
    = Ok (sadd (sadd (sadd (smul (l1_c_h args0) c_h) (smul (l1_c_nh args0) c_nh))
                     (smul (l1_r_h args0) r_h))
               (smul (l1_r_nh args0) r_nh)).
Proof.
  assert (Hbin : forall n h w, (n < 1)%nat -> (h < 1)%nat -> (w < 2)%nat ->
            get mask0 [n; 0%nat; h; w] = lit 0 \/ get mask0 [n; 0%nat; h; w] = lit 1).
  { intros n h w Hn Hh Hw.
    destruct n as [| n]; [| exfalso; lia].
    destruct h as [| h]; [| exfalso; lia].
    destruct w as [| [| w]]; [left | right | exfalso; lia]; reflexivity. }
  exact (proj1 (proj2 (proj2
           (reconstruction_loss_weights Networks_Qc args0 image0 image0 refined0 mask0
              1 1 1 2 eq_refl eq_refl eq_refl eq_refl Hbin)))).
Defined.



(** C9 at the index 2, on the instance a generator step on [batch0] left:
    [None] is returned, [last_batch] holds [batch1], and the forward passes
    and the logger entries are those of the generator step. *)
Lemma training_step_other_index_witness :
  fst (training_step batch1 0 2 self1) = Ok None /\
  last_batch (snd (training_step batch1 0 2 self1)) = Some batch1 /\
  invocations (snd (training_step batch1 0 2 self1)) = invocations self1 /\
  logger (snd (training_step batch1 0 2 self1)) = logger self1.
Proof.
  destruct (training_step_other_index batch1 0 2 self1 ltac:(discriminate)
              ltac:(discriminate)) as (Hret & Hbatch & Hinv & Hlog & _).
  repeat split; assumption.
Defined.

(** C6 on the fresh instance: both optimizers are built, the second with
    the rate 0.0004 for the rate 0.0001 of the command line. *)
Lemma configure_optimizers_rates_witness :
  fst (configure_optimizers self0)
    = Ok ([mkAdam [("net_G"%string, 3%Z)] (lr args0) (weight_decay args0);
           mkAdam [("net_D"%string, 3%Z)] (smul (lit 4) (lr args0)) (weight_decay args0)],
          []) /\
  this (lr args0) = (1 # 10000)%Q /\
  this (smul (lit 4) (lr args0)) = (1 # 2500)%Q.
Proof.
  destruct (configure_optimizers_rates self0) as (_ & Hok & _ & Hiff).
  destruct (proj2 Hiff) as [r Hr].
  { repeat split; (reflexivity || discriminate). }
  split; [rewrite Hr; f_equal; apply (Hok r Hr) |].
  split; reflexivity.
Defined.

(** A negative learning rate: [torch.optim.Adam] raises. *)
Example configure_optimizers_negative_rate :
  fst (configure_optimizers
         (__init__ (mkHparams 3%Z (Q2Qc 1.2) (Q2Qc 1.2) (Q2Qc 1.2) (Q2Qc 1.2)
                      (Q2Qc (-0.5)) (Q2Qc 0) (Q2Qc 1) (Q2Qc 1)
                      "places" "val" 256%Z 128%Z (Q2Qc 0.25) 10%Z 2%Z false 16%Z 4%Z
                      "run" 5%Z 100%Z)))
  = Raise ValueError.
Proof. reflexivity. Qed.

(** C6 with one learning rate for both optimizers fails: with the rate
    0.0001 on the command line the discriminator's optimizer gets 0.0004. *)
Lemma configure_optimizers_same_rate_counterexample :
  ~ (forall opts scheds self',
       configure_optimizers self0 = (Ok (opts, scheds), self') ->
       Forall (fun o => adam_lr o = lr args0) opts).
Proof.
  intros Hall.
  specialize (Hall _ _ _ eq_refl).
  inversion Hall as [| o1 l1 _ Htl]; subst.
  inversion Htl as [| o2 l2 Hd _]; subst.
  simpl in Hd. apply (f_equal (@this)) in Hd.
  vm_compute in Hd. discriminate Hd.
Qed.

(** * Further properties of the module *)

Section TrainingState.

Context {T : Type} `{Sc : Scalar T} `{Nw : Networks T}.

(** No call replaces the networks, the reconstruction loss, the
    visualization loader or the step counter. *)
Lemma perform_keeps_configuration (c : Call) (self : DeepFillV2) :
  net_G (perform c self) = net_G self /\
  net_D (perform c self) = net_D self /\
  recon_loss (perform c self) = recon_loss self /\
  visualization_dataloader (perform c self) = visualization_dataloader self /\
  global_step (perform c self) = global_step self.
Proof.
  destruct c; simpl; repeat split;
    try reflexivity;
    match goal with
    | |- ?f (snd (?m self)) = _ =>
        let K := fresh "K" in
        assert (K : keeps f m)
          by (unfold training_step, configure_optimizers, on_epoch_end, visualize_batch;
              frame);
        apply K
    end.
Qed.

Lemma perform_all_keeps_configuration (calls : list Call) :
  forall self,
    net_G (perform_all calls self) = net_G self /\
    net_D (perform_all calls self) = net_D self /\
    recon_loss (perform_all calls self) = recon_loss self /\
    visualization_dataloader (perform_all calls self) = visualization_dataloader self /\
    global_step (perform_all calls self) = global_step self.
Proof.
  unfold perform_all.
  induction calls as [| c calls IH]; intros self; simpl.
  - repeat split.
  - destruct (IH (perform c self)) as (H1 & H2 & H3 & H4 & H5).
    destruct (perform_keeps_configuration c self) as (K1 & K2 & K3 & K4 & K5).
    rewrite H1, H2, H3, H4, H5. auto.
Qed.

(** X1. Whatever it returns or raises, and with any optimizer index,
    [training_step] leaves its batch in [last_batch]; and no sequence of
    calls replaces the networks, the reconstruction loss, the visualization
    loader or the step counter. *)
Theorem training_step_stores_batch
    (batch : Batch T) (batch_idx optimizer_idx : Z) (self : DeepFillV2)
    (calls : list Call) :
  last_batch (snd (training_step batch batch_idx optimizer_idx self)) = Some batch /\
  net_G (perform_all calls self) = net_G self /\
  net_D (perform_all calls self) = net_D self /\
  recon_loss (perform_all calls self) = recon_loss self /\
  visualization_dataloader (perform_all calls self) = visualization_dataloader self /\
  global_step (perform_all calls self) = global_step self.
Proof.
  split; [| apply perform_all_keeps_configuration].
  unfold training_step.
  destruct (optimizer_idx =? 0)%Z; [| destruct (optimizer_idx =? 1)%Z].
  - run. outcomes. all: reflexivity.
  - run. outcomes. all: try stored_patch. all: reflexivity.
  - run. attrs. reflexivity.
Qed.

(** X2. [training_step] writes to the logger only when it returns a loss.
    The generator step has then appended, at the current step, the entry
    of the two generator losses and after it the entry of their sum; the
    discriminator step the entry of the discriminator loss and after it
    the entry of its two terms.  The logged values are the ones of the
    dictionary it returns.  When it returns [None] or raises, the logger
    is as it was. *)
Theorem training_step_logs_on_return_only
    (batch : Batch T) (batch_idx optimizer_idx : Z) (self : DeepFillV2) :
  match fst (training_step batch batch_idx optimizer_idx self) with
  | Ok (Some out) =>
      (optimizer_idx = 0%Z /\
       exists gen_loss reconstruction_loss,
         progress_bar out = [("gen_loss"%string, gen_loss);
                             ("recon_loss"%string, reconstruction_loss)] /\
         loss out = sadd gen_loss reconstruction_loss /\
         logger (snd (training_step batch batch_idx optimizer_idx self))
           = logger self
               ++ [log_generator_losses (global_step self) gen_loss reconstruction_loss;
                   log_total_generator_loss (global_step self) (loss out)]) \/
      (optimizer_idx = 1%Z /\
       exists real_loss fake_loss,
         progress_bar out = [("d_real_loss"%string, real_loss);
                             ("d_fake_loss"%string, fake_loss)] /\
         loss out = smul (disc_loss_alpha (hparams self)) (sadd real_loss fake_loss) /\
         logger (snd (training_step batch batch_idx optimizer_idx self))
           = logger self
               ++ [log_total_discriminator_loss (global_step self) (loss out);
                   log_discriminator_losses (global_step self) real_loss fake_loss])
  | Ok None | Raise _ =>
      logger (snd (training_step batch batch_idx optimizer_idx self)) = logger self
  end.
Proof.
  unfold training_step.
  destruct (optimizer_idx =? 0)%Z eqn:E0; [| destruct (optimizer_idx =? 1)%Z eqn:E1].
  - apply Z.eqb_eq in E0. run. attrs.
    destruct (G_forward (net_G self) (batch_image batch) (batch_mask batch))
      as [[co re] | e]; attrs; [| reflexivity].
    destruct (R_forward (recon_loss self) (batch_image batch) co re (batch_mask batch))
      as [recon | e]; attrs; [| reflexivity].
    destruct (a <~ tmul re (batch_mask batch) ;;
              b <~ tmul (batch_image batch) (rsub (lit 1) (batch_mask batch)) ;;
              tadd a b)%result as [cm | e]; attrs; [| reflexivity].
    destruct (cat [cm; batch_mask batch] 1) as [x | e]; attrs; [| reflexivity].
    destruct (D_forward (net_D self) x) as [d_fake | e]; attrs; [| reflexivity].
    rewrite <- app_assoc. left. split; [exact E0 |].
    eexists. eexists. cbn [progress_bar loss].
    split; [reflexivity |]. split; reflexivity.
  - apply Z.eqb_eq in E1. run. attrs.
    destruct (cat [batch_image batch; batch_mask batch] 1) as [x_real | e]; attrs;
      [| reflexivity].
    destruct (D_forward (net_D self) x_real) as [d_real | e]; attrs; [| reflexivity].
    destruct (generated_image_only_patch self) as [patch |]; attrs; [| reflexivity].
    destruct (cat [detach patch; batch_mask batch] 1) as [x_fake | e]; attrs;
      [| reflexivity].
    destruct (D_forward (net_D self) x_fake) as [d_fake | e]; attrs; [| reflexivity].
    rewrite <- app_assoc. right. split; [exact E1 |].
    eexists. eexists. cbn [progress_bar loss].
    split; [reflexivity |]. split; reflexivity.
  - run. attrs. reflexivity.
Qed.

(** X3. A generator step replaces [generated_image] as soon as the
    generator has returned, and the stored completed image as soon as the
    blend has returned, also when a later call of the step raises; before
    that point either attribute is as it was. *)
Theorem generator_step_partial_updates
    (batch : Batch T) (batch_idx : Z) (self : DeepFillV2) :
  generated_image (snd (training_step batch batch_idx 0 self))
  = match G_forward (net_G self) (batch_image batch) (batch_mask batch) with
    | Ok (_, refined_image) => Some refined_image
    | Raise _ => generated_image self
    end /\
  generated_image_only_patch (snd (training_step batch batch_idx 0 self))
  = match G_forward (net_G self) (batch_image batch) (batch_mask batch) with
    | Ok (coarse_image, refined_image) =>
        match R_forward (recon_loss self) (batch_image batch) coarse_image refined_image
                (batch_mask batch) with
        | Ok _ =>
            match blend refined_image (batch_image batch) (batch_mask batch) with
            | Ok completed_image => Some completed_image
            | Raise _ => generated_image_only_patch self
            end
        | Raise _ => generated_image_only_patch self
        end
    | Raise _ => generated_image_only_patch self
    end.
Proof.
  unfold training_step, blend. run. attrs.
  destruct (G_forward (net_G self) (batch_image batch) (batch_mask batch))
    as [[co re] | e]; attrs; [| split; reflexivity].
  destruct (R_forward (recon_loss self) (batch_image batch) co re (batch_mask batch))
    as [recon | e]; attrs; [| split; reflexivity].
  destruct (a <~ tmul re (batch_mask batch) ;;
            b <~ tmul (batch_image batch) (rsub (lit 1) (batch_mask batch)) ;;
            tadd a b)%result as [cm | e]; attrs; [| split; reflexivity].
  outcomes; split; reflexivity.
Qed.

End TrainingState.

Section StoredImage.

Context {T : Type} `{Sc : Scalar T} `{Nw : Networks T}.

Lemma perform_keeps_stored_image (c : Call) (self : DeepFillV2) :
  is_generator_step c = false ->
  generated_image_only_patch (perform c self) = generated_image_only_patch self.
Proof.
  intros Hc. destruct c as [b i o | | yielded | |]; simpl in *.
  - unfold training_step. rewrite Hc.
    apply (keeps_bind generated_image_only_patch); [frame | intros _].
    apply keeps_if; frame.
  - assert (K : keeps generated_image_only_patch configure_optimizers)
      by (unfold configure_optimizers; frame).
    apply K.
  - assert (K : keeps generated_image_only_patch (on_epoch_end yielded))
      by (unfold on_epoch_end, visualize_batch; frame).
    apply K.
  - reflexivity.
  - reflexivity.
Qed.

(** X4. The stored completed image outlives every call that is not a
    generator step: discriminator steps, [on_epoch_end], the optimizer and
    loader builders.  A discriminator step made after such calls, on any
    batch, pairs that stored image with the mask of its own batch; it does
    not recompute it for the batch.  The pair is a tensor with the channels
    of the stored image followed by the channels of the mask. *)
Theorem stored_image_outlives_other_calls
    (calls : list Call) (self : DeepFillV2) (batch : Batch T) (batch_idx : Z)
    (patch x_real d_real : tensor T) :
  no_generator_step calls ->
  generated_image_only_patch self = Some patch ->
  cat [batch_image batch; batch_mask batch] 1 = Ok x_real ->
  D_forward (net_D self) x_real = Ok d_real ->
  generated_image_only_patch (perform_all calls self) = Some patch /\
  invocations (snd (training_step batch batch_idx 1 (perform_all calls self)))
  = invocations (perform_all calls self)
      ++ call_net_D x_real
         :: match cat [detach patch; batch_mask batch] 1 with
            | Ok x_fake => [call_net_D x_fake]
            | Raise _ => []
            end /\
  (forall x_fake,
     cat [detach patch; batch_mask batch] 1 = Ok x_fake ->
     shape x_fake
       = set_nth 1 (nth 1 (shape patch) 0 + nth 1 (shape (batch_mask batch)) 0)%nat
           (shape patch) /\
     (forall n c rest, (c < nth 1 (shape patch) 0)%nat ->
        get x_fake (n :: c :: rest) = get patch (n :: c :: rest)) /\
     (forall n c rest,
        get x_fake (n :: (nth 1 (shape patch) 0 + c)%nat :: rest)
          = get (batch_mask batch) (n :: c :: rest))).
Proof.
  intros Hcalls Hpatch Hcat HD.
  assert (Hkept : generated_image_only_patch (perform_all calls self) = Some patch).
  { rewrite <- Hpatch. clear Hpatch Hcat HD. revert self. unfold perform_all.
    induction Hcalls as [| c calls Hc _ IH]; intros self; simpl.
    - reflexivity.
    - rewrite IH. apply perform_keeps_stored_image. exact Hc. }
  split; [exact Hkept |]. split.
  - destruct (perform_all_keeps_configuration calls self) as (_ & HnetD & _).
    unfold training_step. run. attrs.
    rewrite Hcat. attrs. rewrite HnetD, HD. attrs. rewrite Hkept.
    destruct (cat [detach patch; batch_mask batch] 1) as [x_fake | e]; attrs.
    + destruct (D_forward (net_D self) x_fake); attrs; rewrite <- !app_assoc; reflexivity.
    + reflexivity.
  - (* the concatenation, read off [torch.cat] itself *)
    intros x_fake Hfake. unfold cat, concatenate, detach in Hfake.
    destruct ((1 <? length (shape patch))%nat &&
              forallb (fun t' => same_off_axis 1 (shape patch) (shape t'))
                [batch_mask batch]) eqn:E; [| discriminate Hfake].
    injection Hfake as <-. cbn [shape get].
    split; [| split].
    + unfold axis_total. cbn [fold_right]. rewrite Nat.add_0_r. reflexivity.
    + intros n c rest Hc. cbn [cat_get nth].
      apply Nat.ltb_lt in Hc. rewrite Hc. reflexivity.
    + intros n c rest. cbn [cat_get nth].
      assert (Hge : ((nth 1 (shape patch) 0 + c <? nth 1 (shape patch) 0) = false)%nat)
        by (apply Nat.ltb_ge; lia).
      rewrite Hge. unfold set_nth. cbn [firstn skipn app].
      replace (nth 1 (shape patch) 0 + c - nth 1 (shape patch) 0)%nat with c by lia.
      reflexivity.
Qed.

(** A sum of zeros. *)
Lemma sum_of_zeros {EA : @ExactArith T Sc} (l : list T) :
  Forall (fun x => x = lit 0) l -> fold_left sadd l (lit 0) = lit 0.
Proof.
  induction 1 as [| x l Hx _ IH]; simpl.
  - reflexivity.
  - rewrite Hx, sadd_0_l. exact IH.
Qed.

(** X5. When the discriminator scores every entry of the real input at 1
    or more and every entry of the fake input at -1 or less, the
    discriminator step returns the loss 0, whatever [disc_loss_alpha] is:
    a critic that separates by the margin gets no loss. *)
Theorem discriminator_loss_vanishes_when_separated {EA : @ExactArith T Sc}
    (batch : Batch T) (batch_idx : Z) (self : DeepFillV2)
    (patch x_real d_real x_fake d_fake : tensor T) :
  cat [batch_image batch; batch_mask batch] 1 = Ok x_real ->
  D_forward (net_D self) x_real = Ok d_real ->
  generated_image_only_patch self = Some patch ->
  cat [detach patch; batch_mask batch] 1 = Ok x_fake ->
  D_forward (net_D self) x_fake = Ok d_fake ->
  (forall i, In i (indices (shape d_real)) -> sleb (lit 1) (get d_real i) = true) ->
  (forall i, In i (indices (shape d_fake)) -> sleb (get d_fake i) (sneg (lit 1)) = true) ->
  (0 < numel d_real)%nat ->
  (0 < numel d_fake)%nat ->
  (forall n, (0 < n)%nat -> sdiv (lit 0) (lit (inject_Z (Z.of_nat n))) = lit 0) ->
  exists out self',
    training_step batch batch_idx 1 self = (Ok (Some out), self') /\
    loss out = lit 0.
Proof.
  intros HC1 HD1 HP HC2 HD2 Hreal Hfake Nreal Nfake Hdiv.
  eexists. eexists. split.
  - eapply discriminator_step_run; eassumption.
  - cbn [loss]. unfold hinge_discriminator_loss, hinge_real, hinge_fake, mean, elements.
    cbn [shape tmap rsub radd get]. unfold numel. cbn [shape tmap rsub radd].
    rewrite !sum_of_zeros.
    + fold (numel d_real). fold (numel d_fake).
      rewrite (Hdiv _ Nreal), (Hdiv _ Nfake), sadd_0_l, smul_0_r. reflexivity.
    + apply Forall_map, Forall_forall. intros i Hi. unfold relu.
      rewrite (sleb_add (lit 1) (get d_fake i) (Hfake i Hi)). reflexivity.
    + apply Forall_map, Forall_forall. intros i Hi. unfold relu.
      rewrite (sleb_sub (lit 1) (get d_real i) (Hreal i Hi)). reflexivity.
Qed.

End StoredImage.

Section EpochEnd.

Context {T : Type} `{Sc : Scalar T} `{Nw : Networks T}.

(** X6. [on_epoch_end] touches the logger and nothing else of the
    training state: the hyperparameters, the networks, the loss, the last
    batch, both stored images, the loader and the step counter are as they
    were.  It logs the visualization, once, exactly when its computation
    returns; when a step of it raises, [on_epoch_end] raises the same
    exception and has logged nothing. *)
Theorem on_epoch_end_touches_logger_only (yielded : list (Batch T)) (self : DeepFillV2) :
  hparams (snd (on_epoch_end yielded self)) = hparams self /\
  net_G (snd (on_epoch_end yielded self)) = net_G self /\
  net_D (snd (on_epoch_end yielded self)) = net_D self /\
  recon_loss (snd (on_epoch_end yielded self)) = recon_loss self /\
  last_batch (snd (on_epoch_end yielded self)) = last_batch self /\
  generated_image (snd (on_epoch_end yielded self)) = generated_image self /\
  generated_image_only_patch (snd (on_epoch_end yielded self))
    = generated_image_only_patch self /\
  visualization_dataloader (snd (on_epoch_end yielded self))
    = visualization_dataloader self /\
  global_step (snd (on_epoch_end yielded self)) = global_step self /\
  match visualization (net_G self) yielded with
  | Ok grid =>
      fst (on_epoch_end yielded self) = Ok tt /\
      logger (snd (on_epoch_end yielded self))
        = logger self ++ [log_image T (global_step self) grid]
  | Raise e =>
      fst (on_epoch_end yielded self) = Raise e /\
      logger (snd (on_epoch_end yielded self)) = logger self
  end.
Proof.
  repeat match goal with
         | |- ?f (snd (on_epoch_end yielded self)) = ?f self /\ _ =>
             split;
             [ let K := fresh "K" in
               assert (K : keeps f (on_epoch_end yielded))
                 by (unfold on_epoch_end, visualize_batch; frame);
               apply K
             | ]
         end.
  apply on_epoch_end_visualization.
Qed.

(** The loop runs the generator on the batches in the order they are
    yielded, and stops with the first batch that raises. *)
Lemma visualization_loop_invocations (yielded : list (Batch T)) :
  forall (acc : Columns) (self : DeepFillV2),
  exists k,
    invocations (snd (for_each_M yielded visualize_batch acc self))
    = invocations self
        ++ map (fun b => call_net_G (batch_image b) (batch_mask b)) (firstn k yielded) /\
    ((Forall (fun b => exists rs, batch_rows (net_G self) b = Ok rs) yielded /\
      k = length yielded /\
      exists acc', fst (for_each_M yielded visualize_batch acc self) = Ok acc') \/
     (exists j b e,
        nth_error yielded j = Some b /\
        batch_rows (net_G self) b = Raise e /\
        Forall (fun b' => exists rs, batch_rows (net_G self) b' = Ok rs) (firstn j yielded) /\
        k = S j /\
        fst (for_each_M yielded visualize_batch acc self) = Raise e)).
Proof.
  induction yielded as [| b yielded IH]; intros acc self.
  - exists 0%nat. simpl. rewrite app_nil_r. split; [reflexivity |].
    left. split; [constructor |]. split; [reflexivity |]. exists acc. reflexivity.
  - cbn [for_each_M]. unfold bind. rewrite visualize_batch_rows.
    destruct (batch_rows (net_G self) b) as [rs | e] eqn:Eb; cbn [rbind].
    + destruct (IH (append_rows acc rs)
                  (with_invoked (call_net_G (batch_image b) (batch_mask b)) self))
        as (k & Hinv & Hk).
      cbn [net_G with_invoked] in Hk.
      exists (S k). split.
      * rewrite Hinv. cbn [invocations with_invoked firstn map].
        rewrite <- app_assoc. reflexivity.
      * destruct Hk as [(Hall & -> & Hok) | (j & b' & e & Hj & He & Hbefore & -> & Hraise)].
        -- left. split; [constructor; [exists rs; exact Eb | exact Hall] |].
           split; [reflexivity | exact Hok].
        -- right. exists (S j), b', e. cbn [nth_error firstn].
           split; [exact Hj |]. split; [exact He |].
           split; [constructor; [exists rs; exact Eb | exact Hbefore] |].
           split; [reflexivity | exact Hraise].
    + exists 1%nat. split.
      * cbn [snd invocations with_invoked firstn map]. reflexivity.
      * right. exists 0%nat, b, e. cbn [nth_error firstn fst].
        split; [reflexivity |]. split; [exact Eb |].
        split; [constructor |]. split; reflexivity.
Qed.

(** X7. [on_epoch_end] runs the generator once per yielded batch, on the
    image and the mask of that batch and in the order of the loader.
    Either every batch is drawn, and it has run the generator on all of
    them; or some batch is the first that cannot be drawn, and it has run
    the generator on the batches up to and including that one, on no
    later one, and raises what drawing that batch raises. *)
Theorem on_epoch_end_generator_passes (yielded : list (Batch T)) (self : DeepFillV2) :
  exists k,
    (k <= length yielded)%nat /\
    invocations (snd (on_epoch_end yielded self))
    = invocations self
        ++ map (fun b => call_net_G (batch_image b) (batch_mask b)) (firstn k yielded) /\
    (forall rss, map_result (batch_rows (net_G self)) yielded = Ok rss ->
       k = length yielded) /\
    ((Forall (fun b => exists rs, batch_rows (net_G self) b = Ok rs) yielded /\
      k = length yielded) \/
     (exists j b e,
        nth_error yielded j = Some b /\
        batch_rows (net_G self) b = Raise e /\
        Forall (fun b' => exists rs, batch_rows (net_G self) b' = Ok rs) (firstn j yielded) /\
        k = S j /\
        fst (on_epoch_end yielded self) = Raise e)).
Proof.
  destruct (visualization_loop_invocations yielded (mkColumns [] [] [] [] []) self)
    as (k & Hinv & Hk).
  pose proof (visualization_loop yielded (mkColumns [] [] [] [] []) self) as Hloop.
  exists k. split; [| split; [| split]].
  - destruct Hk as [(_ & -> & _) | (j & b & e & Hj & _ & _ & -> & _)]; [lia |].
    assert (Hlt : (j < length yielded)%nat)
      by (apply nth_error_Some; rewrite Hj; discriminate).
    lia.
  - unfold on_epoch_end, bind.
    destruct (for_each_M yielded visualize_batch (mkColumns [] [] [] [] []) self)
      as [[acc | e] self']; cbn [fst snd] in *; [| exact Hinv].
    unfold lift, gets, log, modify.
    destruct (c_masked <~ vstack (masked acc) ;;
              c_coarse <~ vstack (coarse acc) ;;
              c_refined <~ vstack (refined acc) ;;
              c_completed <~ vstack (completed acc) ;;
              c_images <~ vstack (images acc) ;;
              hstack [c_masked; c_coarse; c_refined; c_completed; c_images])%result
      as [grid | e]; cbn [snd invocations with_logged]; exact Hinv.
  - intros rss Hrss. rewrite Hrss in Hloop. cbn [rbind] in Hloop.
    destruct Hk as [(_ & Hlen & _) | (j & b & e & _ & _ & _ & _ & Hraise)];
      [exact Hlen |].
    rewrite Hraise in Hloop. discriminate Hloop.
  - destruct Hk as [(Hall & Hlen & _) | (j & b & e & Hj & He & Hbefore & Hkj & Hraise)].
    + left. split; assumption.
    + right. exists j, b, e. repeat (split; [assumption |]).
      unfold on_epoch_end, bind.
      destruct (for_each_M yielded visualize_batch (mkColumns [] [] [] [] []) self)
        as [[acc | e'] self']; cbn [fst] in *; [discriminate Hraise |].
      injection Hraise as ->. reflexivity.
Qed.

(** X8. With no sample to draw, [on_epoch_end] raises [ValueError], the one
    [np.vstack] raises on an empty list, and logs nothing; with no batch at
    all it leaves the instance as it found it. *)
Theorem on_epoch_end_without_samples (yielded : list (Batch T)) (self : DeepFillV2) :
  all_rows (net_G self) yielded = Ok [] ->
  fst (on_epoch_end yielded self) = Raise ValueError /\
  logger (snd (on_epoch_end yielded self)) = logger self /\
  on_epoch_end [] self = (Raise ValueError, self).
Proof.
  intros Hrows. split; [| split].
  - pose proof (on_epoch_end_visualization yielded self) as Hrun.
    unfold visualization in Hrun. rewrite Hrows in Hrun. apply Hrun.
  - pose proof (on_epoch_end_visualization yielded self) as Hrun.
    unfold visualization in Hrun. rewrite Hrows in Hrun. apply Hrun.
  - reflexivity.
Qed.

Lemma rows_of_length (g : Gnet) (batch : Batch T) (rs : list Row) :
  rows_of g batch rs -> length rs = nth 0 (shape (batch_image batch)) 0%nat.
Proof.
  intros (co & re & cm & mk & n & _ & _ & _ & Hn & Hrs).
  apply Forall2_length in Hrs. rewrite length_seq in Hrs.
  unfold size in Hn. destruct (shape (batch_image batch)) as [| d s]; simpl in *.
  - discriminate Hn.
  - injection Hn as ->. symmetry. exact Hrs.
Qed.

(** X9. When the loader yields at least one batch and every batch can be
    drawn with tiles of [H] by [W] pixels, the logged grid has [H] pixel
    rows for every sample of every batch, [5 * W] pixel columns and three
    channels. *)
Theorem grid_height_counts_samples
    (yielded : list (Batch T)) (self : DeepFillV2) (H W : nat) :
  yielded <> [] ->
  Forall (visualizable (net_G self) H W) yielded ->
  exists grid,
    logger (snd (on_epoch_end yielded self))
      = logger self ++ [log_image T (global_step self) grid] /\
    shape grid = [(samples yielded * H)%nat; (5 * W)%nat; 3%nat].
Proof.
  intros Hne Hall.
  destruct (all_rows_shaped (net_G self) H W yielded Hne Hall)
    as (rows & Erows & Hrows & Srows).
  destruct (grid_of_rows_entries rows H W Hrows Srows) as (grid & Egrid & Sgrid & _).
  exists grid. split.
  - pose proof (on_epoch_end_visualization yielded self) as Hrun.
    unfold visualization in Hrun. rewrite Erows in Hrun. cbn [rbind] in Hrun.
    rewrite Egrid in Hrun. apply Hrun.
  - rewrite Sgrid. f_equal. f_equal.
    unfold all_rows in Erows.
    destruct (map_result (batch_rows (net_G self)) yielded) as [rss | e] eqn:Erss;
      [| discriminate Erows].
    cbn [rbind] in Erows. injection Erows as <-.
    apply map_result_inv in Erss. unfold samples.
    clear - Erss. induction Erss as [| b rs yielded rss Hb _ IH]; simpl.
    + reflexivity.
    + rewrite length_app, IH.
      rewrite (rows_of_length _ _ _ (batch_rows_inv _ _ _ Hb)). reflexivity.
Qed.

(** X10. A tile can be drawn exactly from an array of three dimensions
    whose first, the channels, has size 3 or 1: any other rank makes
    [np.transpose] raise [ValueError], any other number of channels makes
    the product with the three deviations raise it.  A single channel is
    drawn three times, once under each deviation and mean. *)
Theorem denormalize_needs_one_or_three_channels (a : tensor T) :
  match shape a with
  | [C; H; W] =>
      if ((C =? 3) || (C =? 1))%nat then
        exists t,
          denormalize a = Ok t /\
          shape t = [H; W; 3%nat] /\
          (C = 1%nat ->
           forall h w c, (h < H)%nat -> (w < W)%nat -> (c < 3)%nat ->
             get t [h; w; c]
             = astype_uint8
                 (smul (sadd (smul (get a [0%nat; h; w])
                                   (nth c [lit 0.229; lit 0.224; lit 0.225] (lit 0)))
                             (nth c [lit 0.485; lit 0.456; lit 0.406] (lit 0)))
                       (lit 255)))
      else denormalize a = Raise ValueError
  | _ => denormalize a = Raise ValueError
  end.
Proof.
  unfold denormalize, transpose.
  destruct (shape a) as [| C [| H [| W [| U rest]]]] eqn:Ha; try reflexivity.
  destruct (C =? 3)%nat eqn:E3; [| destruct (C =? 1)%nat eqn:E1]; cbn [orb].
  - apply Nat.eqb_eq in E3. subst C. unfold binop, broadcast_shapes.
    cbn [length is_permutation Nat.eqb andb forallb existsb seq orb rbind map nth shape
         of_tuple rev app broadcast_rev broadcast_dim option_map].
    eexists. split; [reflexivity |]. split; [reflexivity |]. discriminate.
  - apply Nat.eqb_eq in E1. subst C. unfold binop, broadcast_shapes.
    cbn [length is_permutation Nat.eqb andb forallb existsb seq orb rbind map nth shape
         of_tuple rev app broadcast_rev broadcast_dim option_map].
    eexists. split; [reflexivity |]. split; [reflexivity |].
    intros _ h w c Hh Hw Hc.
    cbn [get tmap mul_scalar shape]. unfold bidx.
    cbn [rev app bidx_rev Nat.eqb map seq nth position length hd of_tuple get].
    rewrite !(clip_in_range H h Hh), !(clip_in_range W w Hw).
    reflexivity.
  - unfold binop at 1, broadcast_shapes.
    cbn [length is_permutation Nat.eqb andb forallb existsb seq orb rbind map nth shape
         of_tuple rev app broadcast_rev].
    unfold broadcast_dim. rewrite E3, E1. reflexivity.
Qed.

End EpochEnd.

Section ScriptPaths.

Context {T : Type} `{Sc : Scalar T} `{Nw : Networks T}.

Lemma endswith_sep_append (a b : string) :
  b <> EmptyString -> endswith_sep (a ++ b) = endswith_sep b.
Proof.
  intros Hb. induction a as [| c a IH]; [reflexivity |].
  cbn [String.append endswith_sep].
  destruct (a ++ b)%string as [| c' s'] eqn:E.
  - destruct a; simpl in E; [contradiction | discriminate E].
  - exact IH.
Qed.

(** X12. The script writes its checkpoints where its logger writes: the
    checkpoint path is the logger's [save_dir] joined with the logger's
    [name], and the model is built from the same arguments.  For a runs
    folder and a dataset name that are not empty, with no separator at the
    end of the folder and none at either end of the dataset name, and an
    experiment name that does not start with one, that path is
    [RUNS_FOLDER/dataset/experiment].  An experiment name that starts with
    the separator is the checkpoint path by itself. *)
Theorem main_checkpoints_beside_logs (RUNS_FOLDER : string) (args : Hparams T) :
  filepath (checkpoint_callback (snd (main RUNS_FOLDER args)))
    = os_path_join (save_dir (trainer_logger (snd (main RUNS_FOLDER args))))
        [name (trainer_logger (snd (main RUNS_FOLDER args)))] /\
  hparams (fst (main RUNS_FOLDER args)) = args /\
  period (checkpoint_callback (snd (main RUNS_FOLDER args))) = save_epoch args /\
  max_nb_epochs (snd (main RUNS_FOLDER args)) = max_epoch args /\
  (RUNS_FOLDER <> EmptyString -> endswith_sep RUNS_FOLDER = false ->
   dataset args <> EmptyString -> startswith_sep (dataset args) = false ->
   endswith_sep (dataset args) = false ->
   startswith_sep (experiment args) = false ->
   save_dir (trainer_logger (snd (main RUNS_FOLDER args)))
     = (RUNS_FOLDER ++ "/" ++ dataset args)%string /\
   filepath (checkpoint_callback (snd (main RUNS_FOLDER args)))
     = ((RUNS_FOLDER ++ "/" ++ dataset args) ++ "/" ++ experiment args)%string) /\
  (startswith_sep (experiment args) = true ->
   filepath (checkpoint_callback (snd (main RUNS_FOLDER args))) = experiment args).
Proof.
  unfold main, os_path_join.
  cbn [fst snd checkpoint_callback trainer_logger filepath save_dir name period
       max_nb_epochs hparams __init__ fold_left].
  repeat (split; [reflexivity |]). split.
  - intros HR HRe Hd Hds Hde He.
    assert (E1 : join_step RUNS_FOLDER (dataset args)
                 = (RUNS_FOLDER ++ "/" ++ dataset args)%string).
    { unfold join_step. rewrite Hds, HRe.
      destruct RUNS_FOLDER; [contradiction | reflexivity]. }
    rewrite E1. split; [reflexivity |].
    unfold join_step. rewrite He.
    rewrite endswith_sep_append.
    + rewrite endswith_sep_append by exact Hd. rewrite Hde.
      destruct RUNS_FOLDER; [contradiction | reflexivity].
    + discriminate.
  - intros He. unfold join_step at 1. rewrite He. reflexivity.
Qed.

End ScriptPaths.

Import Scores.

(** X4 on the instance left by the generator step on [batch0]: after a
    discriminator step, a visualization and a call to
    [configure_optimizers], the discriminator step on [batch2] still pairs
    the completed image of [batch0] with the mask of [batch2]: the
    completed pixels 1/2 and 13/4, then the mask 1 and 0. *)
Lemma stored_image_outlives_other_calls_witness :
  generated_image_only_patch (perform_all other_calls self1) = Some completed0 /\
  exists x_fake,
    invocations (snd (training_step batch2 0 1 (perform_all other_calls self1)))
    = invocations (perform_all other_calls self1) ++ [call_net_D real2; call_net_D x_fake] /\
    shape x_fake = [1; 2; 1; 2]%nat /\
    map (fun q : Qc => this q) (elements x_fake) = [1 # 2; 13 # 4; 1; 0]%Q.
Proof.
  assert (Hcalls : no_generator_step other_calls) by (repeat constructor).
  destruct (stored_image_outlives_other_calls other_calls self1 batch2 0
              completed0 real2 real2 Hcalls eq_refl eq_refl eq_refl)
    as (Hkept & Hinv & Hpair).
  split; [exact Hkept |].
  exists stale2. split; [exact Hinv |].
  split; [exact (proj1 (Hpair stale2 eq_refl)) | vm_compute; reflexivity].
Defined.

(** X5 on [batch0] with the separating critic: the loss is 0. *)
Lemma discriminator_loss_vanishes_when_separated_witness :
  exists out self',
    @training_step Qc Scalar_Qc Networks_separating batch0 0 1 self_separating
      = (Ok (Some out), self') /\
    loss out = Q2Qc 0.
Proof.
  apply (@discriminator_loss_vanishes_when_separated Qc Scalar_Qc Networks_separating
           ExactArith_Qc batch0 0 self_separating completed0 real0 separated_real
           fake0 separated_fake eq_refl eq_refl eq_refl eq_refl eq_refl).
  - intros i [<- | [<- | []]]; reflexivity.
  - intros i [<- | [<- | []]]; reflexivity.
  - cbn. lia.
  - cbn. lia.
  - intros n _. apply Qcmult_0_l.
Defined.

(** X8 on a loader that yields nothing. *)
Lemma on_epoch_end_without_samples_witness :
  fst (on_epoch_end [] self0) = Raise ValueError /\
  logger (snd (on_epoch_end [] self0)) = logger self0 /\
  on_epoch_end [] self0 = (Raise ValueError, self0).
Proof. exact (on_epoch_end_without_samples [] self0 eq_refl). Defined.

(** X9 on the loader that yields [batch1]: one sample of 1 by 2 pixels
    gives a grid of 1 by 10 pixels. *)
Lemma grid_height_counts_samples_witness :
  exists grid,
    logger (snd (on_epoch_end [batch1] self0)) = [log_image Qc 0 grid] /\
    shape grid = [1; 10; 3]%nat.
Proof.
  assert (Hvis : Forall (visualizable (net_G self0) 1 2) [batch1]).
  { constructor; [| constructor].
    exists 1%nat, (batch_image batch1),
      (tmap (fun x => Qcplus x (Q2Qc (inject_Z 3))) (batch_image batch1)).
    repeat split; (lia || reflexivity). }
  exact (grid_height_counts_samples [batch1] self0 1 2 ltac:(discriminate) Hvis).
Defined.

(** Four-channel images cannot be drawn: the call raises and logs
    nothing. *)
Example on_epoch_end_four_channels :
  fst (on_epoch_end [batch_rgba] self0) = Raise ValueError /\
  logger (snd (on_epoch_end [batch_rgba] self0)) = [].
Proof. split; vm_compute; reflexivity. Qed.

(** The script on the arguments [args0] under the folder ["runs"]. *)
Example main_paths_args0 :
  save_dir (trainer_logger (snd (main "runs" args0))) = "runs/places"%string /\
  filepath (checkpoint_callback (snd (main "runs" args0))) = "runs/places/run"%string.
Proof. split; reflexivity. Qed.
